(** * Guess scoring and challenge progress of claude-artifact-runner

    A shallow embedding of

    - the four [renderGuessRow] functions of the spelling flash-card
      components (the letter-count variant with its two passes, and the
      three variants that colour every cell on its own), and
    - the day bookkeeping of the challenge tracker ([startChallenge],
      [completeTask], [uncompleteTask], [advanceDay]), its task lists
      ([getUserDayTasks]) and the counters of [getCompletionRate], and
    - what the flash-card components compute beside the rows: the test
      that accepts a guess, the leaderboard, the choice of the word of a
      round, the feedback on a misspelt word and the raising of the
      target length.

    Strings are lists of 8-bit characters; [s !! i] is the JavaScript
    [s[i]], [None] standing for [undefined].  Case conversion is the one
    JavaScript performs on ASCII text: it maps the letters A-Z and a-z
    onto each other and leaves every other character alone, so that
    [String.prototype.toLowerCase] acts character by character.  The
    words of the game and the letters of its keyboard are ASCII.

    The letter-count scorer, the test that accepts a guess, the rows
    coloured cell by cell and the feedback are embedded a second time
    over lists of UTF-16 code units ([Utf16], [Utf16Word], [Utf16Pair],
    [Utf16Feedback]), with the lower-casing of JavaScript left as an
    arbitrary function on strings.  Outside ASCII it depends on the
    letters around a letter and may change the length of a string, and
    the code applies it to the target as a whole and to the guess one
    unit at a time; what the two must share for a statement to hold is
    then a hypothesis of the statement. *)

From Stdlib Require Import ZArith Ascii String Lia.
From stdpp Require Import base option list gmap strings sorting pretty.

Local Open Scope Z_scope.

(** ** JavaScript strings *)

Module JS.

Definition is_upper (c : ascii) : bool :=
  (65 <=? N_of_ascii c)%N && (N_of_ascii c <=? 90)%N.

(** [c.toLowerCase()] for a one-character string. *)
Definition lower (c : ascii) : ascii :=
  if is_upper c then ascii_of_N (N_of_ascii c + 32) else c.

Definition toLowerCase (s : list ascii) : list ascii := lower <$> s.

(** A string literal as a list of characters. *)
Definition str (s : string) : list ascii := list_ascii_of_string s.

End JS.

(** ** Cells of a guess row *)

Module Render.

(** The colour classes a cell of a guess row is given (the text colour
    that comes with each is left out); [NoClass] is the empty class
    string. *)
Inductive CellClass : Type :=
| NoClass
| BgGreen500
| BgYellow500
| BgGray400
| BgGray300
| BgRed500.

#[global] Instance CellClass_eq_dec : EqDecision CellClass.
Proof. solve_decision. Defined.

End Render.

(** ** The letter-count variant of [renderGuessRow]

    [SpellingFlashCardGame], first component of the flash-card file: the
    row of a guess is coloured from [matchStatus], which two passes over
    the cells fill in. *)

Module Histogram.

(** The strings stored in [matchStatus]; ['none'] is the filler of
    [new Array(totalCells).fill('none')]. *)
Inductive MatchStatus : Type :=
| StNone
| Correct
| WrongPosition
| Incorrect.

#[global] Instance MatchStatus_eq_dec : EqDecision MatchStatus.
Proof. solve_decision. Defined.

(** The state [currentPair] of the component. *)
Record WordPair : Type := { word : list ascii; pattern : list ascii }.

(** [guess[i]?.toLowerCase()]: [None] is [undefined]. *)
Definition guessLower (guess : list ascii) (i : nat) : option ascii :=
  JS.lower <$> (guess !! i).

(** [guess[i]?.toLowerCase() || '']: [None] is the empty string.  A
    one-character string is never falsy, so only [undefined] is
    replaced. *)
Definition guessedLetter (guess : list ascii) (i : nat) : option ascii :=
  guessLower guess i.

(** [guessedLetter === targetLetter], where [guessedLetter] is a string
    (empty or of one character) and [targetLetter] a one-character
    string or [undefined]: the empty string is equal to neither. *)
Definition strictEq (guessed target : option ascii) : bool :=
  match guessed, target with
  | Some g, Some t => bool_decide (g = t)
  | _, _ => false
  end.

(** [letterCounts.get(letter) || 0]. *)
Definition getOr0 (letterCounts : gmap ascii Z) (letter : ascii) : Z :=
  default 0 (letterCounts !! letter).

(** Body of the loop that counts the letters of the target outside the
    exact matches.  [guess[i]?.toLowerCase() !== targetWord[i]] compares
    [undefined] or a one-character string with a one-character string. *)
Definition countStep (guess targetWord : list ascii)
    (letterCounts : gmap ascii Z) (i : nat) : gmap ascii Z :=
  match targetWord !! i with
  | Some letter =>
      if bool_decide (guessLower guess i ≠ Some letter)
      then <[letter := getOr0 letterCounts letter + 1]> letterCounts
      else letterCounts
  | None => letterCounts
  end.

Definition countLetters (guess targetWord : list ascii) : gmap ascii Z :=
  foldl (countStep guess targetWord) ∅ (seq 0 (length targetWord)).

(** Body of the loop that marks the exact matches.  Every index the
    loops write at is below [totalCells], the length of [matchStatus],
    so the array never grows. *)
Definition markStep (guess targetWord : list ascii)
    (matchStatus : list MatchStatus) (i : nat) : list MatchStatus :=
  if strictEq (guessedLetter guess i) (targetWord !! i)
  then <[i := Correct]> matchStatus
  else matchStatus.

Definition markCorrect (guess targetWord : list ascii) (totalCells : nat)
    : list MatchStatus :=
  foldl (markStep guess targetWord) (replicate totalCells StNone)
        (seq 0 totalCells).

(** Body of the second pass.  [letterCounts.get(g) > 0] is false when
    the key is missing ([undefined > 0]). *)
Definition secondStep (guess : list ascii)
    (st : list MatchStatus * gmap ascii Z) (i : nat)
    : list MatchStatus * gmap ascii Z :=
  let '(matchStatus, letterCounts) := st in
  if bool_decide (matchStatus !! i = Some Correct) then st
  else
    match guessedLetter guess i with
    | Some g =>
        match letterCounts !! g with
        | Some n =>
            if 0 <? n
            then (<[i := WrongPosition]> matchStatus,
                  <[g := n - 1]> letterCounts)
            else (<[i := Incorrect]> matchStatus, letterCounts)
        | None => (<[i := Incorrect]> matchStatus, letterCounts)
        end
    | None => (<[i := Incorrect]> matchStatus, letterCounts)
    end.

Definition secondPass (guess : list ascii) (totalCells : nat)
    (st : list MatchStatus * gmap ascii Z)
    : list MatchStatus * gmap ascii Z :=
  foldl (secondStep guess) st (seq 0 totalCells).

(** [matchStatus] as it stands when the row is drawn. *)
Definition matchStatusOf (w guess : list ascii) : list MatchStatus :=
  let totalCells := Nat.max (length w) (length guess) in
  let targetWord := JS.toLowerCase w in
  let letterCounts := countLetters guess targetWord in
  let matchStatus := markCorrect guess targetWord totalCells in
  fst (secondPass guess totalCells (matchStatus, letterCounts)).

(** The class of cell [index] of the row: the [switch] over
    [matchStatus[index]], with [guess[index] || ""] telling a wrong
    letter from an empty place. *)
Definition cellClass (matchStatus : list MatchStatus) (guess : list ascii)
    (index : nat) : Render.CellClass :=
  match matchStatus !! index with
  | Some Correct => Render.BgGreen500
  | Some WrongPosition => Render.BgYellow500
  | Some Incorrect =>
      match guess !! index with
      | Some _ => Render.BgGray400
      | None => Render.BgRed500
      end
  | _ => Render.NoClass
  end.

Definition rowClasses (matchStatus : list MatchStatus)
    (guess : list ascii) : list Render.CellClass :=
  cellClass matchStatus guess <$> seq 0 (length matchStatus).

(** [renderGuessRow]: [None] is the [null] returned when there is no
    current pair or its word is empty; otherwise the status of every
    cell of the row. *)
Definition renderGuessRow (currentPair : option WordPair)
    (guess : list ascii) : option (list MatchStatus) :=
  match currentPair with
  | None => None
  | Some p =>
      match word p with
      | [] => None
      | _ :: _ => Some (matchStatusOf (word p) guess)
      end
  end.

(** The scorer on a target word: a current pair holding that word. *)
Definition classify (target guess : list ascii)
    : option (list MatchStatus) :=
  renderGuessRow (Some {| word := target; pattern := [] |}) guess.

End Histogram.

(** ** Counting positions

    The properties of the scorer count positions: the cells of a row
    that carry some status, the places of a letter in a word. *)

(** Number of indices below [k] at which [P] holds. *)
Fixpoint countUpto (P : nat → bool) (k : nat) : nat :=
  match k with
  | O => O
  | S k' => (countUpto P k' + (if P k' then 1 else 0))%nat
  end.

(** Number of places of the character [c] in [s]. *)
Definition occurrences (c : ascii) (s : list ascii) : nat :=
  length (filter (λ x, x = c) s).

Module Scoring.
Import Histogram.

(** Cell [i] is an exact match: the test of the first marking loop. *)
Definition exactAt (guess targetWord : list ascii) (i : nat) : bool :=
  strictEq (guessedLetter guess i) (targetWord !! i).

(** Place [i] of the target holds [c] and is not matched exactly: the
    places the counting loop adds up. *)
Definition unmatchedAt (guess targetWord : list ascii) (c : ascii)
    (i : nat) : bool :=
  bool_decide (targetWord !! i = Some c)
  && bool_decide (guessLower guess i ≠ Some c).

(** Place [i] of the target holds [c] and the guess has the same
    letter there. *)
Definition matchedAt (guess targetWord : list ascii) (c : ascii)
    (i : nat) : bool :=
  bool_decide (targetWord !! i = Some c)
  && bool_decide (guessLower guess i = Some c).

(** Cell [i] is marked ['wrong-position'] and its guessed letter,
    lower-cased, is [c]. *)
Definition wrongAt (ms : list MatchStatus) (guess : list ascii)
    (c : ascii) (i : nat) : bool :=
  bool_decide (ms !! i = Some WrongPosition)
  && bool_decide (guessedLetter guess i = Some c).

(** Cell [i] is marked ['correct'] and its guessed letter, lower-cased,
    is [c]. *)
Definition correctAt (ms : list MatchStatus) (guess : list ascii)
    (c : ascii) (i : nat) : bool :=
  bool_decide (ms !! i = Some Correct)
  && bool_decide (guessedLetter guess i = Some c).

(** What is left of the count of the guessed letter of cell [i] when
    the second pass reaches it: the count [lc0] the pass started from,
    less the cells before [i] that took the letter. *)
Definition leftAt (ms : list MatchStatus) (guess : list ascii)
    (lc0 : gmap ascii Z) (g : ascii) (i : nat) : Z :=
  getOr0 lc0 g - Z.of_nat (countUpto (wrongAt ms guess g) i).

(** The test of the second pass at cell [i], read off the finished
    row. *)
Definition takesLetter (ms : list MatchStatus) (guess : list ascii)
    (lc0 : gmap ascii Z) (i : nat) : bool :=
  match guessedLetter guess i with
  | Some g => 0 <? leftAt ms guess lc0 g i
  | None => false
  end.

(** The state of the second pass after [k] cells, started on the row
    [ms1] with the counts [lc0]: the cells from [k] on are untouched,
    the cells before [k] are final, and the counts are what the cells
    before [k] have left. *)
Definition secondInv (guess : list ascii) (n : nat)
    (ms1 : list MatchStatus) (lc0 : gmap ascii Z) (k : nat)
    (st : list MatchStatus * gmap ascii Z) : Prop :=
  length st.1 = n
  ∧ (∀ i, (k ≤ i)%nat → st.1 !! i = ms1 !! i)
  ∧ (∀ i, (i < k)%nat → (i < n)%nat →
       st.1 !! i =
         Some (if bool_decide (ms1 !! i = Some Correct) then Correct
               else if takesLetter st.1 guess lc0 i then WrongPosition
               else Incorrect))
  ∧ (∀ c, getOr0 st.2 c = leftAt st.1 guess lc0 c k)
  ∧ (∀ c, 0 ≤ getOr0 st.2 c).

(** Cells marked ['correct'] or ['wrong-position'] whose guessed letter
    is [c], letters compared without regard to case. *)
Definition credited (c : ascii) (ms : list MatchStatus)
    (guess : list ascii) : nat :=
  countUpto (λ i, correctAt ms guess (JS.lower c) i
                  || wrongAt ms guess (JS.lower c) i)
            (length ms).

(** Places of the letter [c] in the target, without regard to case. *)
Definition letterCount (c : ascii) (target : list ascii) : nat :=
  occurrences (JS.lower c) (JS.toLowerCase target).

End Scoring.

(** ** The classifications of the specification *)

Module Spec.

Inductive Classification : Type :=
| correct
| present_elsewhere
| absent.

#[global] Instance Classification_eq_dec : EqDecision Classification.
Proof. solve_decision. Defined.

(** The statuses of the code under the names of the specification;
    the filler ['none'] is no classification. *)
Definition ofStatus (s : Histogram.MatchStatus) : option Classification :=
  match s with
  | Histogram.StNone => None
  | Histogram.Correct => Some correct
  | Histogram.WrongPosition => Some present_elsewhere
  | Histogram.Incorrect => Some absent
  end.

End Spec.

(** ** The marks of the code under the names of the specification *)

Module Simulation.
Import Spec.

(** A cell of [matchStatus] as a mark of the two passes: the filler
    stands for a position not marked yet. *)
Definition markOf (s : Histogram.MatchStatus) : Classification :=
  match s with
  | Histogram.Correct => correct
  | Histogram.WrongPosition => present_elsewhere
  | Histogram.Incorrect | Histogram.StNone => absent
  end.

End Simulation.

(** ** The variants of [renderGuessRow] that colour each cell on its own *)

(** A row whose cells are each coloured from the target letter and the
    guessed letter of its own position alone. *)
Module Positional.
Import Render.

Definition cell (expected guessed : option ascii) : CellClass :=
  match expected, guessed with
  | Some _, None => BgRed500
  | Some e, Some g =>
      if bool_decide (JS.lower g = JS.lower e) then BgGreen500
      else BgGray300
  | None, _ => BgGray300
  end.

Definition row (target guess : list ascii) : list CellClass :=
  (λ i, cell (target !! i) (guess !! i))
    <$> seq 0 (Nat.max (length target) (length guess)).

(** Target and guess have the same letter at place [i], whatever the
    case. *)
Definition sameLetter (target guess : list ascii) (i : nat) : bool :=
  match target !! i, guess !! i with
  | Some t, Some g => bool_decide (JS.lower g = JS.lower t)
  | _, _ => false
  end.

End Positional.

(** [default.tsx], and word for word the second component of the
    flash-card file: the target is the state [currentWord]. *)
Module WordGame.
Import Render.

(** The class of cell [index].  [expectedLetter] is [null] past the end
    of the word; [guessedLetter] is [guess[index] || ""]. *)
Definition cellClass (currentWord guess : list ascii) (index : nat)
    : CellClass :=
  let expectedLetter :=
    if (index <? length currentWord)%nat then currentWord !! index
    else None in
  let guessedLetter := guess !! index in
  match expectedLetter with
  | Some e =>
      match guessedLetter with
      | None => BgRed500
      | Some g =>
          if bool_decide (JS.lower g = JS.lower e) then BgGreen500
          else BgGray300
      end
  | None => BgGray300
  end.

Definition renderGuessRow (currentWord guess : list ascii)
    : list CellClass :=
  let totalCells := Nat.max (length currentWord) (length guess) in
  cellClass currentWord guess <$> seq 0 totalCells.

End WordGame.

(** The third component of the flash-card file: the target is the word of
    the state [currentPair], which may be [null]. *)
Module PairGame.
Import Render.

(** The word of the current pair, empty when there is none. *)
Definition target (currentPair : option Histogram.WordPair) : list ascii :=
  from_option Histogram.word [] currentPair.

(** [currentPair?.word.length || 0]. *)
Definition wordLength (currentPair : option Histogram.WordPair) : nat :=
  match currentPair with
  | Some p => length (Histogram.word p)
  | None => O
  end.

Definition cellClass (currentPair : option Histogram.WordPair)
    (guess : list ascii) (index : nat) : CellClass :=
  let expectedLetter :=
    if (index <? wordLength currentPair)%nat
    then currentPair ≫= λ p, Histogram.word p !! index
    else None in
  let guessedLetter := guess !! index in
  match expectedLetter with
  | Some e =>
      match guessedLetter with
      | None => BgRed500
      | Some g =>
          if bool_decide (JS.lower g = JS.lower e) then BgGreen500
          else BgGray300
      end
  | None => BgGray300
  end.

Definition renderGuessRow (currentPair : option Histogram.WordPair)
    (guess : list ascii) : list CellClass :=
  let totalCells := Nat.max (wordLength currentPair) (length guess) in
  cellClass currentPair guess <$> seq 0 totalCells.

End PairGame.

(** ** The challenge tracker *)

Module Challenge.

(** An entry of [task_completions[day]]; a [Date] is its time value. *)
Record TaskCompletion : Type := {
  completed : bool;
  completed_at : option Z;
  notes : option string
}.

(** [UserChallengeProgress].  [current_day] is a whole number; the keys
    of [task_completions] are days. *)
Record UserChallengeProgress : Type := {
  id : string;
  user_id : string;
  challenge_id : string;
  level_id : string;
  start_date : Z;
  current_day : Z;
  task_completions : gmap Z (gmap string TaskCompletion)
}.

(** What a call reads from its surroundings: the identifier drawn from
    [Math.random()] and the time of [new Date()]. *)
Record Env : Type := { random_id : string; now : Z }.

Definition startChallenge (env : Env) (userId challengeId levelId : string)
    : UserChallengeProgress :=
  {| id := random_id env;
     user_id := userId;
     challenge_id := challengeId;
     level_id := levelId;
     start_date := now env;
     current_day := 1;
     task_completions := ∅ |}.

(** [{ ...progress, task_completions: tc }]. *)
Definition withCompletions (progress : UserChallengeProgress)
    (tc : gmap Z (gmap string TaskCompletion)) : UserChallengeProgress :=
  {| id := id progress;
     user_id := user_id progress;
     challenge_id := challenge_id progress;
     level_id := level_id progress;
     start_date := start_date progress;
     current_day := current_day progress;
     task_completions := tc |}.

(** [{ ...progress, current_day: d }]. *)
Definition withDay (progress : UserChallengeProgress) (d : Z)
    : UserChallengeProgress :=
  {| id := id progress;
     user_id := user_id progress;
     challenge_id := challenge_id progress;
     level_id := level_id progress;
     start_date := start_date progress;
     current_day := d;
     task_completions := task_completions progress |}.

(** [progress] is [None] when the caller passes [undefined]. *)
Definition completeTask (env : Env) (progress : option UserChallengeProgress)
    (taskTemplateId : string) (notes : option string)
    : UserChallengeProgress :=
  match progress with
  | None => startChallenge env "" "" ""
  | Some progress =>
      let day := current_day progress in
      let tc := task_completions progress in
      withCompletions progress
        (<[day := <[taskTemplateId :=
                      {| completed := true;
                         completed_at := Some (now env);
                         notes := notes |}]>
                  (default ∅ (tc !! day))]> tc)
  end.

Definition uncompleteTask (env : Env)
    (progress : option UserChallengeProgress) (taskTemplateId : string)
    : UserChallengeProgress :=
  match progress with
  | None => startChallenge env "" "" ""
  | Some progress =>
      let day := current_day progress in
      let tc := task_completions progress in
      let dayCompletions := default ∅ (tc !! day) in
      let remainingTasks := delete taskTemplateId dayCompletions in
      withCompletions progress (<[day := remainingTasks]> tc)
  end.

Definition advanceDay (progress : option UserChallengeProgress)
    : option UserChallengeProgress :=
  match progress with
  | None => progress
  | Some p =>
      if 28 <=? current_day p then progress
      else Some (withDay p (current_day p + 1))
  end.

(** A call of the tracker on a progress. *)
Inductive Call : Type :=
| CompleteTask (env : Env) (taskTemplateId : string) (notes : option string)
| UncompleteTask (env : Env) (taskTemplateId : string)
| AdvanceDay.

Definition call (progress : option UserChallengeProgress) (c : Call)
    : option UserChallengeProgress :=
  match c with
  | CompleteTask env t n => Some (completeTask env progress t n)
  | UncompleteTask env t => Some (uncompleteTask env progress t)
  | AdvanceDay => advanceDay progress
  end.

(** The progress after a sequence of calls, each on the result of the
    one before. *)
Definition calls (progress : option UserChallengeProgress)
    (cs : list Call) : option UserChallengeProgress :=
  foldl call progress cs.

End Challenge.

(** ** The task lists of the challenge tracker *)

Module Tasks.

Inductive ScheduleType : Type :=
| Daily
| Weekly
| Monthly.

#[global] Instance ScheduleType_eq_dec : EqDecision ScheduleType.
Proof. solve_decision. Defined.

Record TaskContent : Type := {
  content : string;
  media_url : option string;
  duration : option Z
}.

Record Schedule : Type := {
  type : ScheduleType;
  occurrences : list Z
}.

(** The field [content] is [task_content] here, [content] being the
    field of [TaskContent]. *)
Record TaskTemplate : Type := {
  id : string;
  name : string;
  details : string;
  task_content : TaskContent;
  schedule : Schedule;
  level_id : string
}.

(** An element of the list [getUserDayTasks] returns: the template with
    the three fields spread over it. *)
Record DayTask : Type := {
  template : TaskTemplate;
  completed : bool;
  completedAt : option Z;
  notes : option string
}.

(** [progress.task_completions[day]?.[taskId]]. *)
Definition entry (progress : Challenge.UserChallengeProgress) (day : Z)
    (taskId : string) : option Challenge.TaskCompletion :=
  Challenge.task_completions progress !! day ≫= λ m, m !! taskId.

(** [progress.task_completions[day]?.[taskId]?.completed] as a condition:
    [undefined] is falsy. *)
Definition completedOn (progress : Challenge.UserChallengeProgress)
    (day : Z) (taskId : string) : bool :=
  from_option Challenge.completed false (entry progress day taskId).

(** [Math.ceil(targetDay / 7)]. *)
Definition weekOf (targetDay : Z) : Z := - ((- targetDay) `div` 7).

(** [Array.from({ length: 7 }, (_, i) => weekStartDay + i)]. *)
Definition weekDays (weekStartDay : Z) : list Z := seqZ weekStartDay 7.

(** [Array.from({ length: targetDay }, (_, i) => i + 1)]: empty when
    [targetDay] is not positive. *)
Definition monthDays (targetDay : Z) : list Z := seqZ 1 targetDay.

(** [completionDay ? ...[completionDay][id].f : undefined]: the day found
    is a number, falsy when it is 0. *)
Definition fromCompletionDay {A : Type}
    (progress : Challenge.UserChallengeProgress) (taskId : string)
    (f : Challenge.TaskCompletion → option A) (completionDay : option Z)
    : option A :=
  match completionDay with
  | Some d => if d =? 0 then None else entry progress d taskId ≫= f
  | None => None
  end.

Definition dailyTask (progress : Challenge.UserChallengeProgress)
    (targetDay : Z) (t : TaskTemplate) : DayTask :=
  {| template := t;
     completed := from_option Challenge.completed false
                    (entry progress targetDay (id t));
     completedAt := entry progress targetDay (id t)
                      ≫= Challenge.completed_at;
     notes := entry progress targetDay (id t) ≫= Challenge.notes |}.

Definition weeklyTask (progress : Challenge.UserChallengeProgress)
    (targetDay weekStartDay : Z) (t : TaskTemplate) : DayTask :=
  let done := λ weekDay,
    (weekDay <=? targetDay) && completedOn progress weekDay (id t) in
  let isCompletedThisWeek := existsb done (weekDays weekStartDay) in
  let completionDay := find done (weekDays weekStartDay) in
  {| template := t;
     completed := isCompletedThisWeek;
     completedAt :=
       fromCompletionDay progress (id t) Challenge.completed_at completionDay;
     notes :=
       fromCompletionDay progress (id t) Challenge.notes completionDay |}.

Definition monthlyTask (progress : Challenge.UserChallengeProgress)
    (targetDay : Z) (t : TaskTemplate) : DayTask :=
  let done := λ day, completedOn progress day (id t) in
  let isCompletedThisMonth := existsb done (monthDays targetDay) in
  let completionDay := find done (monthDays targetDay) in
  {| template := t;
     completed := isCompletedThisMonth;
     completedAt :=
       fromCompletionDay progress (id t) Challenge.completed_at completionDay;
     notes :=
       fromCompletionDay progress (id t) Challenge.notes completionDay |}.

(** [getUserDayTasks]; [day] is [None] when the argument is left out,
    and a [day] of 0 is falsy like it. *)
Definition getUserDayTasks (progress : option Challenge.UserChallengeProgress)
    (taskTemplates : list TaskTemplate) (day : option Z) : list DayTask :=
  match progress with
  | None => []
  | Some progress =>
      let targetDay :=
        match day with
        | Some d => if d =? 0 then Challenge.current_day progress else d
        | None => Challenge.current_day progress
        end in
      let currentWeek := weekOf targetDay in
      let weekStartDay := (currentWeek - 1) * 7 + 1 in
      let dailyTasks :=
        dailyTask progress targetDay
          <$> filter (λ t, type (schedule t) = Daily
                           ∧ targetDay ∈ occurrences (schedule t))
                taskTemplates in
      let weeklyTasks :=
        weeklyTask progress targetDay weekStartDay
          <$> filter (λ t, type (schedule t) = Weekly
                           ∧ currentWeek ∈ occurrences (schedule t))
                taskTemplates in
      let monthlyTasks :=
        monthlyTask progress targetDay
          <$> filter (λ t, type (schedule t) = Monthly
                           ∧ 1 ∈ occurrences (schedule t))
                taskTemplates in
      dailyTasks ++ weeklyTasks ++ monthlyTasks
  end.

(** Body of the loop of [getCompletionRate] over the days: the state is
    [(totalTasks, completedTasks)]. *)
Definition rateStep (progress : Challenge.UserChallengeProgress)
    (taskTemplates : list TaskTemplate) (st : Z * Z) (day : Z) : Z * Z :=
  let dayTasks := getUserDayTasks (Some progress) taskTemplates (Some day) in
  (st.1 + Z.of_nat (length dayTasks),
   st.2 + Z.of_nat
            (length (filter (λ task,
                       completedOn progress day (id (template task)) = true)
                     dayTasks))).

(** The counters [totalTasks] and [completedTasks] of [getCompletionRate]
    when its loop over the days [1 .. currentDay] ends.  The function
    returns 0 when [totalTasks] is 0 and the quotient
    [completedTasks / totalTasks] otherwise. *)
Definition completionCounts (progress : Challenge.UserChallengeProgress)
    (taskTemplates : list TaskTemplate) : Z * Z :=
  let currentDay :=
    if Challenge.current_day progress =? 0 then 1
    else Challenge.current_day progress in
  foldl (rateStep progress taskTemplates) (0, 0) (seqZ 1 currentDay).

End Tasks.

(** ** Numbers *)

Module JSMath.

(** [Math.min(x, ...xs)] on whole numbers, the list of arguments not
    being empty. *)
Definition minOf (x : Z) (xs : list Z) : Z := foldl Z.min x xs.

End JSMath.

(** ** The leaderboard *)

Module Leaderboard.

Record Entry : Type := { name : list ascii; score : Z }.

(** White space and line ends of ASCII text, what [trim] strips. *)
Definition isWhiteSpace (c : ascii) : bool :=
  let n := N_of_ascii c in
  ((9 <=? n)%N && (n <=? 13)%N) || (n =? 32)%N.

Fixpoint dropWhile (f : ascii → bool) (s : list ascii) : list ascii :=
  match s with
  | [] => []
  | c :: s' => if f c then dropWhile f s' else s
  end.

(** [s.trim()]. *)
Definition trim (s : list ascii) : list ascii :=
  reverse (dropWhile isWhiteSpace (reverse (dropWhile isWhiteSpace s))).

(** The condition [qualifies] of [checkAndPromptHighScore].  On an empty
    leaderboard the minimum is [Infinity], which no score exceeds. *)
Definition qualifies (leaderboard : list Entry) (score : Z) : bool :=
  (length leaderboard <? 5)%nat
  || ((0 <? length leaderboard)%nat
      && match Leaderboard.score <$> leaderboard with
         | [] => false
         | s :: scores => JSMath.minOf s scores <? score
         end).

(** [x] put into a list in descending order of score, behind the entries
    of the same score. *)
Fixpoint insertDesc (x : Entry) (l : list Entry) : list Entry :=
  match l with
  | [] => [x]
  | y :: l' =>
      if Leaderboard.score y <? Leaderboard.score x then x :: l
      else y :: insertDesc x l'
  end.

(** [l.sort((a, b) => b.score - a.score)]: the sort is stable, so its
    result is the one of putting the entries in, one after the other,
    each behind those of the same score. *)
Definition sortDesc (l : list Entry) : list Entry :=
  foldl (λ sorted x, insertDesc x sorted) [] l.

(** The leaderboard [handleSubmitHighScore] sets; it sets none, and the
    state stays as it is, when the trimmed name is empty. *)
Definition handleSubmitHighScore (leaderboard : list Entry)
    (playerName : list ascii) (score : Z) : list Entry :=
  match trim playerName with
  | [] => leaderboard
  | name =>
      let newEntry := {| name := name; score := score |} in
      take 5 (sortDesc (leaderboard ++ [newEntry]))
  end.

(** [a] may stand before [b] in the sorted leaderboard. *)
Definition above (a b : Entry) : Prop :=
  Leaderboard.score b ≤ Leaderboard.score a.

End Leaderboard.

(** ** Choosing the word of a round

    [startNewRound] of the second flash-card component; [wordPairs] is
    the imported word list. *)

Module WordPick.
Import Histogram.

(** [Math.abs(pair.word.length - currentTargetLength)]. *)
Definition distance (currentTargetLength : Z) (pair : WordPair) : Z :=
  Z.abs (Z.of_nat (length (word pair)) - currentTargetLength).

(** [availablePairs] when the word is drawn: the pairs of the target
    length or, when there is none, the pairs closest to it.  On an empty
    word list the minimum is [Infinity] and the list stays empty. *)
Definition availablePairs (wordPairs : list WordPair)
    (currentTargetLength : Z) : list WordPair :=
  let exact :=
    filter (λ pair, Z.of_nat (length (word pair)) = currentTargetLength)
      wordPairs in
  match exact with
  | [] =>
      let diffs := distance currentTargetLength <$> wordPairs in
      match diffs with
      | [] => []
      | d :: ds =>
          let minDiff := JSMath.minOf d ds in
          filter (λ pair, distance currentTargetLength pair = minDiff)
            wordPairs
      end
  | _ :: _ => exact
  end.

(** The word [startNewRound] sets, [r] being the index
    [Math.floor(Math.random() * availablePairs.length)]; [None] is the
    [TypeError] of reading [word] off [undefined]. *)
Definition startNewRound (wordPairs : list WordPair)
    (currentTargetLength : Z) (r : nat) : option (list ascii) :=
  word <$> availablePairs wordPairs currentTargetLength !! r.

End WordPick.

(** ** Raising the target length

    The second flash-card component counts the words spelt correctly
    and lengthens the words it asks for. *)

Module LevelUp.

(** The update a correct guess makes to
    [(successfulCount, currentTargetLength)]. *)
Definition onSuccess (st : Z * Z) : Z * Z :=
  let '(prevCount, prevLength) := st in
  let newCount := prevCount + 1 in
  if newCount =? 4 then (0, prevLength + 1) else (newCount, prevLength).

End LevelUp.

(** ** The letter-count variant over UTF-16 code units

    The same [renderGuessRow] with nothing assumed of case conversion.  A
    string is the list of its code units, and [toLowerCase] stands for
    [String.prototype.toLowerCase], any function from strings to
    strings: the code applies it to the whole word, and to the guess one
    code unit at a time, and the result may differ in length from its
    argument.  What is proved of these definitions holds of the code
    whatever the lower-casing of JavaScript does. *)

Module Utf16.

Record WordPair : Type := { word : list N; pattern : list N }.

(** A string literal of ASCII characters as the list of its code
    units. *)
Definition str (s : string) : list N := N_of_ascii <$> list_ascii_of_string s.

Section LowerCase.

Variable toLowerCase : list N → list N.

(** [s[i]]: the one-unit string at [i], [None] for [undefined]. *)
Definition charAt (s : list N) (i : nat) : option (list N) :=
  (λ u, [u]) <$> s !! i.

(** [guess[i]?.toLowerCase()]: [None] is [undefined]. *)
Definition guessLower (guess : list N) (i : nat) : option (list N) :=
  (λ u, toLowerCase [u]) <$> guess !! i.

(** [guess[i]?.toLowerCase() || '']: the empty string when the guess has
    no unit at [i]. *)
Definition guessedLetter (guess : list N) (i : nat) : list N :=
  default [] (guessLower guess i).

(** [letterCounts.get(letter) || 0]; the keys are strings. *)
Definition getOr0 (letterCounts : gmap (list N) Z) (letter : list N) : Z :=
  default 0 (letterCounts !! letter).

(** Body of the loop that counts the letters of the target outside the
    exact matches. *)
Definition countStep (guess targetWord : list N)
    (letterCounts : gmap (list N) Z) (i : nat) : gmap (list N) Z :=
  match charAt targetWord i with
  | Some letter =>
      if bool_decide (guessLower guess i ≠ Some letter)
      then <[letter := getOr0 letterCounts letter + 1]> letterCounts
      else letterCounts
  | None => letterCounts
  end.

Definition countLetters (guess targetWord : list N) : gmap (list N) Z :=
  foldl (countStep guess targetWord) ∅ (seq 0 (length targetWord)).

(** Body of the loop that marks the exact matches:
    [guessedLetter === targetLetter], a string against a one-unit string
    or [undefined]. *)
Definition markStep (guess targetWord : list N)
    (matchStatus : list Histogram.MatchStatus) (i : nat)
    : list Histogram.MatchStatus :=
  if bool_decide (Some (guessedLetter guess i) = charAt targetWord i)
  then <[i := Histogram.Correct]> matchStatus
  else matchStatus.

Definition markCorrect (guess targetWord : list N) (totalCells : nat)
    : list Histogram.MatchStatus :=
  foldl (markStep guess targetWord)
        (replicate totalCells Histogram.StNone) (seq 0 totalCells).

(** Body of the second pass: [guessedLetter && letterCounts.get(...) > 0],
    the empty string being falsy and a missing key giving
    [undefined > 0], false. *)
Definition secondStep (guess : list N)
    (st : list Histogram.MatchStatus * gmap (list N) Z) (i : nat)
    : list Histogram.MatchStatus * gmap (list N) Z :=
  let '(matchStatus, letterCounts) := st in
  if bool_decide (matchStatus !! i = Some Histogram.Correct) then st
  else
    match guessedLetter guess i with
    | [] => (<[i := Histogram.Incorrect]> matchStatus, letterCounts)
    | g =>
        match letterCounts !! g with
        | Some n =>
            if 0 <? n
            then (<[i := Histogram.WrongPosition]> matchStatus,
                  <[g := n - 1]> letterCounts)
            else (<[i := Histogram.Incorrect]> matchStatus, letterCounts)
        | None => (<[i := Histogram.Incorrect]> matchStatus, letterCounts)
        end
    end.

Definition secondPass (guess : list N) (totalCells : nat)
    (st : list Histogram.MatchStatus * gmap (list N) Z)
    : list Histogram.MatchStatus * gmap (list N) Z :=
  foldl (secondStep guess) st (seq 0 totalCells).

(** [matchStatus] as it stands when the row is drawn. *)
Definition matchStatusOf (w guess : list N) : list Histogram.MatchStatus :=
  let totalCells := Nat.max (length w) (length guess) in
  let targetWord := toLowerCase w in
  let letterCounts := countLetters guess targetWord in
  let matchStatus := markCorrect guess targetWord totalCells in
  fst (secondPass guess totalCells (matchStatus, letterCounts)).

(** [renderGuessRow]: [None] is the [null] returned when there is no
    current pair or its word is empty. *)
Definition renderGuessRow (currentPair : option WordPair)
    (guess : list N) : option (list Histogram.MatchStatus) :=
  match currentPair with
  | None => None
  | Some p =>
      match word p with
      | [] => None
      | _ :: _ => Some (matchStatusOf (word p) guess)
      end
  end.

(** The scorer on a target word: a current pair holding that word. *)
Definition classify (target guess : list N)
    : option (list Histogram.MatchStatus) :=
  renderGuessRow (Some {| word := target; pattern := [] |}) guess.

(** *** What the proofs count *)

(** Cell [i] is an exact match. *)
Definition exactAt (guess targetWord : list N) (i : nat) : bool :=
  bool_decide (Some (guessedLetter guess i) = charAt targetWord i).

(** Place [i] of the lower-cased target holds the letter [c] and is not
    matched exactly. *)
Definition unmatchedAt (guess targetWord : list N) (c : list N)
    (i : nat) : bool :=
  bool_decide (charAt targetWord i = Some c)
  && bool_decide (guessLower guess i ≠ Some c).

(** Place [i] of the lower-cased target holds the letter [c] and the
    guess has the same letter there. *)
Definition matchedAt (guess targetWord : list N) (c : list N)
    (i : nat) : bool :=
  bool_decide (charAt targetWord i = Some c)
  && bool_decide (guessLower guess i = Some c).

(** Cell [i] is marked wrong-position and its guessed letter is [c]. *)
Definition wrongAt (ms : list Histogram.MatchStatus) (guess : list N)
    (c : list N) (i : nat) : bool :=
  bool_decide (ms !! i = Some Histogram.WrongPosition)
  && bool_decide (guessedLetter guess i = c).

(** What is left of the count of [g] when the second pass reaches cell
    [i]. *)
Definition leftAt (ms : list Histogram.MatchStatus) (guess : list N)
    (lc0 : gmap (list N) Z) (g : list N) (i : nat) : Z :=
  getOr0 lc0 g - Z.of_nat (countUpto (wrongAt ms guess g) i).

(** The test of the second pass at cell [i], read off the finished
    row. *)
Definition takesLetter (ms : list Histogram.MatchStatus) (guess : list N)
    (lc0 : gmap (list N) Z) (i : nat) : bool :=
  bool_decide (guessedLetter guess i ≠ [])
  && (0 <? leftAt ms guess lc0 (guessedLetter guess i) i).

(** The state of the second pass after [k] cells. *)
Definition secondInv (guess : list N) (n : nat)
    (ms1 : list Histogram.MatchStatus) (lc0 : gmap (list N) Z) (k : nat)
    (st : list Histogram.MatchStatus * gmap (list N) Z) : Prop :=
  length st.1 = n
  ∧ (∀ i, (k ≤ i)%nat → st.1 !! i = ms1 !! i)
  ∧ (∀ i, (i < k)%nat → (i < n)%nat →
       st.1 !! i =
         Some (if bool_decide (ms1 !! i = Some Histogram.Correct)
               then Histogram.Correct
               else if takesLetter st.1 guess lc0 i
                    then Histogram.WrongPosition
                    else Histogram.Incorrect))
  ∧ (∀ c, getOr0 st.2 c = leftAt st.1 guess lc0 c k)
  ∧ (∀ c, 0 ≤ getOr0 st.2 c).

(** Lower-casing the string as a whole gives, unit for unit, what
    lower-casing each of its units gives, as it does on ASCII text. *)
Definition unitwise (s : list N) : Prop :=
  (λ u, [u]) <$> toLowerCase s = (λ u, toLowerCase [u]) <$> s.

(** Target and guess have the same letter at place [i], whatever the
    case: both units are there and lower-case to the same string. *)
Definition sameLetter (target guess : list N) (i : nat) : bool :=
  match target !! i, guess !! i with
  | Some t, Some g => bool_decide (toLowerCase [g] = toLowerCase [t])
  | _, _ => false
  end.

(** The test of [handleGuessSubmit] in the four components:
    [currentGuess.toLowerCase() === word.toLowerCase()], both strings
    lower-cased as a whole. *)
Definition isCorrect (currentGuess word : list N) : bool :=
  bool_decide (toLowerCase currentGuess = toLowerCase word).

(** Cell [i] of the guess holds a unit whose lower-case form is [c], and
    is not an exact match. *)
Definition unmatchedGuessAt (guess targetWord : list N) (c : list N)
    (i : nat) : bool :=
  negb (exactAt guess targetWord i)
  && bool_decide (guessLower guess i = Some c).

(** *** The scorer as the specification words it *)

(** The available-letter counter, keyed by the lower-cased letter. *)
Definition Counter : Type := list N → Z.

Definition decrement (avail : Counter) (c : list N) : Counter :=
  λ x, if bool_decide (x = c) then avail x - 1 else avail x.

(** The letter-frequency histogram of the target, built once; letters
    are counted without regard to case, under their lower-case form. *)
Definition histogram (target : list N) : Counter :=
  λ c, Z.of_nat (length (filter (λ u, toLowerCase [u] = c) target)).

(** Pass 1 at position [i]. *)
Definition pass1Step (target guess : list N)
    (st : list Spec.Classification * Counter) (i : nat)
    : list Spec.Classification * Counter :=
  let '(marks, avail) := st in
  match target !! i, guess !! i with
  | Some t, Some g =>
      if bool_decide (toLowerCase [g] = toLowerCase [t])
      then (<[i := Spec.correct]> marks, decrement avail (toLowerCase [t]))
      else st
  | _, _ => st
  end.

(** Pass 2 at position [i]. *)
Definition pass2Step (guess : list N)
    (st : list Spec.Classification * Counter) (i : nat)
    : list Spec.Classification * Counter :=
  let '(marks, avail) := st in
  if bool_decide (marks !! i = Some Spec.correct) then st
  else
    match guess !! i with
    | Some g =>
        if 0 <? avail (toLowerCase [g])
        then (<[i := Spec.present_elsewhere]> marks,
              decrement avail (toLowerCase [g]))
        else (<[i := Spec.absent]> marks, avail)
    | None => (<[i := Spec.absent]> marks, avail)
    end.

(** The two passes of the specification, each from left to right, the
    first run to its end before the second starts.  A position no pass
    has marked yet holds [absent]. *)
Definition reference (target guess : list N) : list Spec.Classification :=
  let n := Nat.max (length target) (length guess) in
  let st0 := (replicate n Spec.absent, histogram target) in
  let st1 := foldl (pass1Step target guess) st0 (seq 0 n) in
  fst (foldl (pass2Step guess) st1 (seq 0 n)).

(** The state of the first pass after [k] positions. *)
Definition pass1Inv (target guess : list N) (n k : nat)
    (st : list Spec.Classification * Counter) : Prop :=
  (∀ i, st.1 !! i =
          if bool_decide (i < n)%nat
          then Some (if bool_decide (i < k)%nat
                        && exactAt guess (toLowerCase target) i
                     then Spec.correct else Spec.absent)
          else None)
  ∧ (∀ c, st.2 c =
            histogram target c
            - Z.of_nat (countUpto (matchedAt guess (toLowerCase target) c)
                          k)).

(** The states of the code and of the two passes that go together. *)
Definition related (st : list Histogram.MatchStatus * gmap (list N) Z)
    (st' : list Spec.Classification * Counter) : Prop :=
  Simulation.markOf <$> st.1 = st'.1
  ∧ (∀ c, st'.2 c = getOr0 st.2 c)
  ∧ getOr0 st.2 [] = 0.

End LowerCase.

End Utf16.

(** ** Lower-casing the strings of the examples

    [String.prototype.toLowerCase] on the strings the examples use:
    ASCII text, the letters of Latin-1, the Greek alphabet and the
    capital I with dot.  The general statements are proved for every
    function in its place; this one serves the closed examples. *)

Module Unicode.

(** Capital letters A-Z, the capitals of Latin-1 and the Greek
    capitals. *)
Definition isUpper (u : N) : bool :=
  ((65 <=? u) && (u <=? 90))%N
  || ((192 <=? u) && (u <=? 222) && negb (u =? 215))%N
  || ((913 <=? u) && (u <=? 937) && negb (u =? 930))%N.

(** The small letters of the same alphabets. *)
Definition isLower (u : N) : bool :=
  ((97 <=? u) && (u <=? 122))%N
  || ((223 <=? u) && (u <=? 255) && negb (u =? 247))%N
  || ((945 <=? u) && (u <=? 969))%N.

Definition isCased (u : N) : bool := isUpper u || isLower u.

(** The letters above lower-case by adding 32. *)
Definition lowerUnit (u : N) : N := if isUpper u then (u + 32)%N else u.

(** [lowerFrom afterCased s]: the lower-case form of [s], standing after
    a cased letter or not.  A capital sigma (931) becomes the final
    sigma (962) after a cased letter when no cased letter follows, and
    the small sigma (963) otherwise; the capital I with dot (304)
    becomes i (105) followed by the combining dot (775).  The context of
    a sigma is read off the units next to it, the rule of Unicode on
    strings that hold no apostrophe or other case-ignorable character
    beside a sigma. *)
Fixpoint lowerFrom (afterCased : bool) (s : list N) : list N :=
  match s with
  | [] => []
  | u :: s' =>
      if (u =? 931)%N then
        let beforeCased :=
          match s' with
          | v :: _ => isCased v
          | [] => false
          end in
        (if afterCased && negb beforeCased then 962%N else 963%N)
          :: lowerFrom true s'
      else if (u =? 304)%N then 105%N :: 775%N :: lowerFrom true s'
      else lowerUnit u :: lowerFrom (isCased u) s'
  end.

Definition toLowerCase (s : list N) : list N := lowerFrom false s.

End Unicode.

(** ** The cell-by-cell variants over code units *)

(** [default.tsx] and the second component of the flash-card file, on
    lists of code units: each letter is lower-cased on its own. *)
Module Utf16Word.
Import Render.

Section LowerCase.

Variable toLowerCase : list N → list N.

(** The class of cell [index].  [expectedLetter] is [null] past the end
    of the word; [guessedLetter] is [guess[index] || ""], empty exactly
    when the guess has no unit there. *)
Definition cellClass (currentWord guess : list N) (index : nat)
    : CellClass :=
  let expectedLetter :=
    if (index <? length currentWord)%nat then currentWord !! index
    else None in
  let guessedLetter := guess !! index in
  match expectedLetter with
  | Some e =>
      match guessedLetter with
      | None => BgRed500
      | Some g =>
          if bool_decide (toLowerCase [g] = toLowerCase [e]) then BgGreen500
          else BgGray300
      end
  | None => BgGray300
  end.

Definition renderGuessRow (currentWord guess : list N) : list CellClass :=
  let totalCells := Nat.max (length currentWord) (length guess) in
  cellClass currentWord guess <$> seq 0 totalCells.

End LowerCase.

End Utf16Word.

(** The third component of the flash-card file, on lists of code units:
    the target is the word of [currentPair], which may be [null]. *)
Module Utf16Pair.
Import Render.

Section LowerCase.

Variable toLowerCase : list N → list N.

(** [currentPair?.word.length || 0]. *)
Definition wordLength (currentPair : option Utf16.WordPair) : nat :=
  match currentPair with
  | Some p => length (Utf16.word p)
  | None => O
  end.

Definition cellClass (currentPair : option Utf16.WordPair)
    (guess : list N) (index : nat) : CellClass :=
  let expectedLetter :=
    if (index <? wordLength currentPair)%nat
    then currentPair ≫= λ p, Utf16.word p !! index
    else None in
  let guessedLetter := guess !! index in
  match expectedLetter with
  | Some e =>
      match guessedLetter with
      | None => BgRed500
      | Some g =>
          if bool_decide (toLowerCase [g] = toLowerCase [e]) then BgGreen500
          else BgGray300
      end
  | None => BgGray300
  end.

Definition renderGuessRow (currentPair : option Utf16.WordPair)
    (guess : list N) : list CellClass :=
  let totalCells := Nat.max (wordLength currentPair) (length guess) in
  cellClass currentPair guess <$> seq 0 totalCells.

End LowerCase.

End Utf16Pair.

(** ** Feedback on a misspelt word, over code units *)

Module Utf16Feedback.

Section LowerCase.

Variable toLowerCase : list N → list N.

(** The test of the loop at [i]:
    [expected[i].toLowerCase() !== input[i].toLowerCase()]; both units
    are there, the lengths being equal when the loop runs. *)
Definition mismatchAt (expected input : list N) (i : nat) : bool :=
  match expected !! i, input !! i with
  | Some e, Some g => bool_decide (toLowerCase [e] ≠ toLowerCase [g])
  | _, _ => false
  end.

Definition lengthMessage (inputLength expectedLength : nat) : list N :=
  Utf16.str "Your word has " ++ Utf16.str (pretty inputLength)
  ++ Utf16.str " letters, but it should have "
  ++ Utf16.str (pretty expectedLength) ++ Utf16.str ".".

(** The units [e] and [g] stand between double quotes (34). *)
Definition letterMessage (i : nat) (e g : N) : list N :=
  Utf16.str "The letter at position " ++ Utf16.str (pretty (i + 1)%nat)
  ++ Utf16.str " should be " ++ [34%N; e; 34%N]
  ++ Utf16.str " but you typed " ++ [34%N; g; 34%N] ++ Utf16.str ".".

Definition orderMessage : list N :=
  Utf16.str "There might be an issue with the letter order.".

Definition getSpellingErrorFeedback (expected input : list N) : list N :=
  if bool_decide (length input ≠ length expected)
  then lengthMessage (length input) (length expected)
  else
    match find (mismatchAt expected input) (seq 0 (length expected)) with
    | Some i =>
        match expected !! i, input !! i with
        | Some e, Some g => letterMessage i e g
        | _, _ => orderMessage
        end
    | None => orderMessage
    end.

End LowerCase.

End Utf16Feedback.

(** ** Sample data *)

Module Sample.

Definition env : Challenge.Env :=
  {| Challenge.random_id := "k3x9"; Challenge.now := 1000 |}.

(** A progress on day 3 that has a record, still empty, for the day. *)
Definition progress : Challenge.UserChallengeProgress :=
  Challenge.withCompletions
    (Challenge.withDay (Challenge.startChallenge env "u" "c" "l") 3)
    (<[3 := ∅]> ∅).

Definition task (tid : string) (ty : Tasks.ScheduleType) (occ : list Z)
    : Tasks.TaskTemplate :=
  {| Tasks.id := tid;
     Tasks.name := "task";
     Tasks.details := "details";
     Tasks.task_content :=
       {| Tasks.content := "{}";
          Tasks.media_url := None;
          Tasks.duration := None |};
     Tasks.schedule := {| Tasks.type := ty; Tasks.occurrences := occ |};
     Tasks.level_id := "l" |}.

Definition templates : list Tasks.TaskTemplate :=
  [task "walk" Tasks.Daily [1; 2; 3]; task "plan" Tasks.Weekly [1];
   task "review" Tasks.Monthly [1]].

Definition leaderboard : list Leaderboard.Entry :=
  [{| Leaderboard.name := JS.str "ann"; Leaderboard.score := 90 |};
   {| Leaderboard.name := JS.str "bob"; Leaderboard.score := 70 |};
   {| Leaderboard.name := JS.str "cy"; Leaderboard.score := 70 |};
   {| Leaderboard.name := JS.str "dee"; Leaderboard.score := 40 |};
   {| Leaderboard.name := JS.str "eve"; Leaderboard.score := 10 |}].

End Sample.

Import Histogram Scoring.

(** * Proofs *)

(** ** Case conversion *)

Lemma length_toLowerCase (s : list ascii) :
  length (JS.toLowerCase s) = length s.
Proof. apply length_fmap. Qed.

(** ** Loops over the indices [0 .. k-1] *)

Lemma foldl_seq_S {A : Type} (f : A → nat → A) (a : A) (k : nat) :
  foldl f a (seq 0 (S k)) = f (foldl f a (seq 0 k)) k.
Proof. rewrite seq_S, foldl_app. reflexivity. Qed.

Lemma foldl_ext_in {A B : Type} (f g : A → B → A) (a : A) (l : list B) :
  (∀ x b, b ∈ l → f x b = g x b) → foldl f a l = foldl g a l.
Proof.
  revert a. induction l as [|b l IH]; intros a Hfg; simpl; [reflexivity|].
  rewrite (Hfg a b) by constructor.
  apply IH. intros x b' Hb'. apply Hfg. by constructor.
Qed.

(** ** Counting *)

Lemma countUpto_ext (P Q : nat → bool) (k : nat) :
  (∀ i, (i < k)%nat → P i = Q i) → countUpto P k = countUpto Q k.
Proof.
  induction k as [|k IH]; intros H; simpl; [reflexivity|].
  rewrite IH, (H k) by (intros; try apply H; lia). reflexivity.
Qed.

Lemma countUpto_none (P : nat → bool) (k : nat) :
  (∀ i, (i < k)%nat → P i = false) → countUpto P k = O.
Proof.
  induction k as [|k IH]; intros H; simpl; [reflexivity|].
  rewrite IH, (H k) by (intros; try apply H; lia). reflexivity.
Qed.

Lemma countUpto_add (P : nat → bool) (k j : nat) :
  (∀ i, (k ≤ i)%nat → P i = false) →
  countUpto P (k + j) = countUpto P k.
Proof.
  intros H. induction j as [|j IH].
  - by rewrite Nat.add_0_r.
  - rewrite Nat.add_succ_r. simpl. rewrite IH, (H (k + j)%nat) by lia. lia.
Qed.

Lemma countUpto_ge (P : nat → bool) (k n : nat) :
  (k ≤ n)%nat → (∀ i, (k ≤ i)%nat → P i = false) →
  countUpto P n = countUpto P k.
Proof.
  intros Hle H. replace n with (k + (n - k))%nat by lia.
  by apply countUpto_add.
Qed.

(** Two properties that never hold together are counted apart. *)
Lemma countUpto_or (P Q : nat → bool) (k : nat) :
  (∀ i, (i < k)%nat → P i && Q i = false) →
  countUpto (λ i, P i || Q i) k = (countUpto P k + countUpto Q k)%nat.
Proof.
  induction k as [|k IH]; intros H; simpl; [reflexivity|].
  rewrite IH by (intros; apply H; lia).
  specialize (H k ltac:(lia)).
  destruct (P k), (Q k); simpl in *; try discriminate; lia.
Qed.

Lemma countUpto_mono (P Q : nat → bool) (k : nat) :
  (∀ i, (i < k)%nat → P i = true → Q i = true) →
  (countUpto P k ≤ countUpto Q k)%nat.
Proof.
  induction k as [|k IH]; intros H; simpl; [lia|].
  specialize (IH ltac:(intros; apply H; [lia|done])).
  specialize (H k ltac:(lia)).
  destruct (P k), (Q k); try lia; discriminate (H eq_refl).
Qed.

(** The places of a character, counted by index. *)
Lemma countUpto_occurrences (c : ascii) (s : list ascii) :
  countUpto (λ i, bool_decide (s !! i = Some c)) (length s)
  = occurrences c s.
Proof.
  unfold occurrences.
  induction s as [|x s IH] using rev_ind; [reflexivity|].
  rewrite length_app, filter_app, length_app. simpl.
  rewrite Nat.add_1_r. simpl.
  rewrite <- IH.
  rewrite (countUpto_ext _ (λ i, bool_decide (s !! i = Some c))).
  2:{ intros i Hi. by rewrite lookup_app_l. }
  f_equal.
  rewrite list_lookup_middle by reflexivity.
  rewrite filter_cons, filter_nil.
  destruct (decide (x = c)) as [->|Hne].
  - rewrite bool_decide_true by reflexivity. reflexivity.
  - rewrite bool_decide_false by congruence. reflexivity.
Qed.

(** ** The map of letter counts *)

Lemma getOr0_empty (c : ascii) : getOr0 ∅ c = 0.
Proof. unfold getOr0. by rewrite lookup_empty. Qed.

Lemma getOr0_insert (m : gmap ascii Z) (a c : ascii) (v : Z) :
  getOr0 (<[a := v]> m) c = if bool_decide (c = a) then v else getOr0 m c.
Proof.
  unfold getOr0. case_bool_decide as H.
  - subst. by rewrite lookup_insert_eq.
  - by rewrite lookup_insert_ne.
Qed.

(** ** The counting loop *)

Lemma countLetters_prefix (guess tw : list ascii) (c : ascii) (k : nat) :
  getOr0 (foldl (countStep guess tw) ∅ (seq 0 k)) c
  = Z.of_nat (countUpto (unmatchedAt guess tw c) k).
Proof.
  induction k as [|k IH]; [apply getOr0_empty|].
  rewrite foldl_seq_S. simpl countUpto.
  unfold countStep at 1, unmatchedAt at 2.
  destruct (tw !! k) as [letter|] eqn:Hk.
  - case_bool_decide as Hg.
    + rewrite getOr0_insert. case_bool_decide as Hc.
      * subst c. rewrite IH.
        rewrite !bool_decide_true by done. simpl. lia.
      * rewrite IH. rewrite (bool_decide_false (Some letter = Some c))
          by congruence.
        simpl. lia.
    + rewrite IH.
      destruct (decide (letter = c)) as [->|Hne].
      * rewrite (bool_decide_false (_ ≠ _)) by tauto.
        rewrite andb_false_r. lia.
      * rewrite (bool_decide_false (Some letter = Some c)) by congruence.
        simpl. lia.
  - rewrite IH. rewrite (bool_decide_false (None = Some c)) by done.
    simpl. lia.
Qed.

Lemma countLetters_spec (guess tw : list ascii) (c : ascii) :
  getOr0 (countLetters guess tw) c
  = Z.of_nat (countUpto (unmatchedAt guess tw c) (length tw)).
Proof. apply countLetters_prefix. Qed.

Lemma countLetters_nonneg (guess tw : list ascii) (c : ascii) :
  0 ≤ getOr0 (countLetters guess tw) c.
Proof. rewrite countLetters_spec. lia. Qed.

(** ** The loop that marks the exact matches *)

Lemma markCorrect_prefix (guess tw : list ascii) (n k i : nat) :
  (k ≤ n)%nat →
  foldl (markStep guess tw) (replicate n StNone) (seq 0 k) !! i
  = if bool_decide (i < n)%nat
    then Some (if bool_decide (i < k)%nat && exactAt guess tw i
               then Correct else StNone)
    else None.
Proof.
  revert i. induction k as [|k IH]; intros i Hk.
  - simpl. case_bool_decide.
    + by apply lookup_replicate_2.
    + apply lookup_replicate_None. lia.
  - rewrite foldl_seq_S.
    assert (IH' : ∀ j, foldl (markStep guess tw) (replicate n StNone)
                         (seq 0 k) !! j
                       = if bool_decide (j < n)%nat
                         then Some (if bool_decide (j < k)%nat
                                       && exactAt guess tw j
                                    then Correct else StNone)
                         else None)
      by (intros j; apply IH; lia).
    clear IH. rename IH' into IH.
    set (ms := foldl _ _ _) in *.
    assert (Hlen : length ms = n).
    { destruct (decide (length ms = n)) as [|Hne]; [done|exfalso].
      destruct (decide (length ms < n)%nat).
      - pose proof (lookup_ge_None_2 ms (length ms) ltac:(lia)) as E.
        rewrite IH, bool_decide_true in E by lia. discriminate.
      - pose proof (lookup_lt_is_Some_2 ms n ltac:(lia)) as [x E].
        rewrite IH, bool_decide_false in E by lia. discriminate. }
    unfold markStep. fold (exactAt guess tw k).
    destruct (decide (i = k)) as [->|Hik].
    + rewrite (bool_decide_true (k < n)%nat), (bool_decide_true (k < S k)%nat)
        by lia.
      destruct (exactAt guess tw k) eqn:He.
      * rewrite list_lookup_insert_eq by lia. reflexivity.
      * rewrite IH, bool_decide_true, bool_decide_false by lia. reflexivity.
    + assert (E : bool_decide (i < S k)%nat = bool_decide (i < k)%nat).
      { apply bool_decide_ext. lia. }
      rewrite E.
      destruct (exactAt guess tw k).
      * rewrite list_lookup_insert_ne by done. apply IH.
      * apply IH.
Qed.

Lemma markCorrect_lookup (guess tw : list ascii) (n i : nat) :
  (i < n)%nat →
  markCorrect guess tw n !! i
  = Some (if exactAt guess tw i then Correct else StNone).
Proof.
  intros Hi. unfold markCorrect.
  rewrite markCorrect_prefix, !bool_decide_true by lia. reflexivity.
Qed.

Lemma length_markCorrect (guess tw : list ascii) (n : nat) :
  length (markCorrect guess tw n) = n.
Proof.
  destruct (decide (length (markCorrect guess tw n) = n)) as [|Hne];
    [done|exfalso].
  destruct (decide (length (markCorrect guess tw n) < n)%nat).
  - pose proof (lookup_ge_None_2 (markCorrect guess tw n)
                  (length (markCorrect guess tw n)) ltac:(lia)) as E.
    rewrite markCorrect_lookup in E by lia. discriminate.
  - pose proof (lookup_lt_is_Some_2 (markCorrect guess tw n) n ltac:(lia))
      as [x E].
    unfold markCorrect in E.
    rewrite markCorrect_prefix, bool_decide_false in E by lia. discriminate.
Qed.

Lemma markCorrect_Correct (guess tw : list ascii) (n i : nat) :
  (i < n)%nat →
  bool_decide (markCorrect guess tw n !! i = Some Correct)
  = exactAt guess tw i.
Proof.
  intros Hi. rewrite markCorrect_lookup by done.
  destruct (exactAt guess tw i).
  - by rewrite bool_decide_true.
  - by rewrite bool_decide_false.
Qed.

(** ** The second pass *)

Lemma secondStep_getOr0 (guess : list ascii) (ms : list MatchStatus)
    (lc : gmap ascii Z) (i : nat) :
  secondStep guess (ms, lc) i
  = if bool_decide (ms !! i = Some Correct) then (ms, lc)
    else match guessedLetter guess i with
         | Some g =>
             if 0 <? getOr0 lc g
             then (<[i := WrongPosition]> ms, <[g := getOr0 lc g - 1]> lc)
             else (<[i := Incorrect]> ms, lc)
         | None => (<[i := Incorrect]> ms, lc)
         end.
Proof.
  unfold secondStep, getOr0.
  case_bool_decide; [reflexivity|].
  destruct (guessedLetter guess i) as [g|]; [|reflexivity].
  destruct (lc !! g) as [v|]; reflexivity.
Qed.

Lemma wrongAt_insert_ne (ms : list MatchStatus) (guess : list ascii)
    (c : ascii) (k i : nat) (x : MatchStatus) :
  i ≠ k → wrongAt (<[k := x]> ms) guess c i = wrongAt ms guess c i.
Proof.
  intros Hne. unfold wrongAt. by rewrite list_lookup_insert_ne.
Qed.

Lemma leftAt_insert (ms : list MatchStatus) (guess : list ascii)
    (lc0 : gmap ascii Z) (g : ascii) (k i : nat) (x : MatchStatus) :
  (i ≤ k)%nat →
  leftAt (<[k := x]> ms) guess lc0 g i = leftAt ms guess lc0 g i.
Proof.
  intros Hle. unfold leftAt. f_equal. f_equal.
  apply countUpto_ext. intros j Hj. apply wrongAt_insert_ne. lia.
Qed.

Lemma takesLetter_insert (ms : list MatchStatus) (guess : list ascii)
    (lc0 : gmap ascii Z) (k i : nat) (x : MatchStatus) :
  (i ≤ k)%nat →
  takesLetter (<[k := x]> ms) guess lc0 i = takesLetter ms guess lc0 i.
Proof.
  intros Hle. unfold takesLetter.
  destruct (guessedLetter guess i); [|reflexivity].
  by rewrite leftAt_insert.
Qed.

Lemma leftAt_S (ms : list MatchStatus) (guess : list ascii)
    (lc0 : gmap ascii Z) (g : ascii) (k : nat) :
  leftAt ms guess lc0 g (S k)
  = leftAt ms guess lc0 g k - (if wrongAt ms guess g k then 1 else 0).
Proof. unfold leftAt. simpl. destruct (wrongAt ms guess g k); lia. Qed.

Section SecondPass.

Variable guess : list ascii.
Variable n : nat.
Variable ms1 : list MatchStatus.
Variable lc0 : gmap ascii Z.
Hypothesis Hlen : length ms1 = n.
Hypothesis Hnonneg : ∀ c, 0 ≤ getOr0 lc0 c.

Lemma secondInv_init : secondInv guess n ms1 lc0 0 (ms1, lc0).
Proof.
  unfold secondInv; simpl. repeat split; try done.
  - intros i Hi. lia.
  - intros c. unfold leftAt. simpl. lia.
Qed.

Lemma secondInv_step (k : nat) (st : list MatchStatus * gmap ascii Z) :
  (k < n)%nat →
  secondInv guess n ms1 lc0 k st →
  secondInv guess n ms1 lc0 (S k) (secondStep guess st k).
Proof.
  intros Hk. destruct st as [ms lc].
  rewrite secondStep_getOr0.
  intros (Hl & Hrest & Hdone & Hleft & Hpos).
  simpl in Hl, Hrest, Hdone, Hleft, Hpos.
  pose proof (Hrest k ltac:(lia)) as Hmsk.
  case_bool_decide as Hc.
  { (* the cell is an exact match: nothing changes *)
    unfold secondInv; simpl. repeat split; try done.
    - intros i Hi. apply Hrest. lia.
    - intros i Hi Hin. destruct (decide (i = k)) as [->|Hne].
      + rewrite <- Hmsk, bool_decide_true by done. done.
      + apply Hdone; lia.
    - intros c. rewrite leftAt_S, Hleft.
      unfold wrongAt. rewrite Hc.
      rewrite (bool_decide_false (Some Correct = Some WrongPosition))
        by done.
      simpl. lia. }
  assert (Hfresh : ∀ x i, (i < S k)%nat → (i < n)%nat →
    x = (if takesLetter ms guess lc0 k then WrongPosition else Incorrect) →
    <[k := x]> ms !! i =
      Some (if bool_decide (ms1 !! i = Some Correct) then Correct
            else if takesLetter (<[k := x]> ms) guess lc0 i
                 then WrongPosition else Incorrect)).
  { intros x i Hi Hin Hx. rewrite takesLetter_insert by lia.
    destruct (decide (i = k)) as [->|Hne].
    - rewrite list_lookup_insert_eq by lia.
      rewrite <- Hmsk, bool_decide_false by done. by rewrite Hx.
    - rewrite list_lookup_insert_ne by done. apply Hdone; lia. }
  assert (Hkeep : ∀ x i, (S k ≤ i)%nat → <[k := x]> ms !! i = ms1 !! i).
  { intros x i Hi. rewrite list_lookup_insert_ne by lia.
    apply Hrest. lia. }
  assert (Hleft' : ∀ x c,
    leftAt (<[k := x]> ms) guess lc0 c (S k)
    = getOr0 lc c
      - (if bool_decide (x = WrongPosition)
            && bool_decide (guessedLetter guess k = Some c)
         then 1 else 0)).
  { intros x c. rewrite leftAt_S, leftAt_insert, Hleft by lia.
    unfold wrongAt. rewrite list_lookup_insert_eq by lia.
    rewrite (bool_decide_ext (Some x = Some WrongPosition)
               (x = WrongPosition)) by (split; congruence).
    reflexivity. }
  unfold takesLetter in Hfresh.
  destruct (guessedLetter guess k) as [g|] eqn:Hg.
  - rewrite <- Hleft in Hfresh.
    destruct (0 <? getOr0 lc g) eqn:Hpos'.
    + unfold secondInv; simpl.
      split; [by rewrite length_insert|].
      split; [by apply Hkeep|].
      split; [intros; by apply Hfresh|].
      split.
      * intros c. rewrite Hleft', getOr0_insert.
        rewrite (bool_decide_true (WrongPosition = WrongPosition)) by done.
        simpl.
        destruct (decide (c = g)) as [->|Hne].
        -- by rewrite !bool_decide_true.
        -- rewrite !bool_decide_false by congruence. lia.
      * intros c. rewrite getOr0_insert. case_bool_decide; [|done].
        apply Z.ltb_lt in Hpos'. lia.
    + unfold secondInv; simpl.
      split; [by rewrite length_insert|].
      split; [by apply Hkeep|].
      split; [intros; by apply Hfresh|].
      split; [|done].
      intros c. rewrite Hleft'.
      rewrite (bool_decide_false (Incorrect = WrongPosition)) by done.
      simpl. lia.
  - unfold secondInv; simpl.
    split; [by rewrite length_insert|].
    split; [by apply Hkeep|].
    split; [intros; by apply Hfresh|].
    split; [|done].
    intros c. rewrite Hleft'.
    rewrite (bool_decide_false (Incorrect = WrongPosition)) by done.
    simpl. lia.
Qed.

Lemma secondInv_prefix (k : nat) :
  (k ≤ n)%nat →
  secondInv guess n ms1 lc0 k
    (foldl (secondStep guess) (ms1, lc0) (seq 0 k)).
Proof.
  induction k as [|k IH]; intros Hk.
  - apply secondInv_init.
  - rewrite foldl_seq_S. apply secondInv_step; [lia|]. apply IH. lia.
Qed.

Lemma secondPass_inv :
  secondInv guess n ms1 lc0 n (secondPass guess n (ms1, lc0)).
Proof. by apply secondInv_prefix. Qed.

End SecondPass.

(** ** The finished row *)

Lemma matchStatusOf_inv (w guess : list ascii) :
  let n := Nat.max (length w) (length guess) in
  let tw := JS.toLowerCase w in
  let lc0 := countLetters guess tw in
  let ms := matchStatusOf w guess in
  length ms = n
  ∧ (∀ i, (i < n)%nat →
       ms !! i =
         Some (if exactAt guess tw i then Correct
               else if takesLetter ms guess lc0 i then WrongPosition
               else Incorrect))
  ∧ (∀ c, 0 ≤ leftAt ms guess lc0 c n).
Proof.
  intros n tw lc0 ms.
  pose proof (secondPass_inv guess n (markCorrect guess tw n) lc0
                (length_markCorrect guess tw n)
                (countLetters_nonneg guess tw))
    as (Hl & _ & Hdone & Hleft & Hpos).
  fold (matchStatusOf w guess) in *.
  change (fst (secondPass guess n (markCorrect guess tw n, lc0)))
    with ms in *.
  repeat split.
  - exact Hl.
  - intros i Hi. rewrite (Hdone i Hi Hi).
    by rewrite markCorrect_Correct.
  - intros c. rewrite <- Hleft. apply Hpos.
Qed.

Lemma length_matchStatusOf (w guess : list ascii) :
  length (matchStatusOf w guess) = Nat.max (length w) (length guess).
Proof. apply matchStatusOf_inv. Qed.

Lemma matchStatusOf_lookup (w guess : list ascii) (i : nat) :
  (i < Nat.max (length w) (length guess))%nat →
  matchStatusOf w guess !! i =
    Some (if exactAt guess (JS.toLowerCase w) i then Correct
          else if takesLetter (matchStatusOf w guess) guess
                    (countLetters guess (JS.toLowerCase w)) i
               then WrongPosition
               else Incorrect).
Proof. apply matchStatusOf_inv. Qed.

(** No cell of the finished row still holds the filler. *)
Lemma matchStatusOf_marked (w guess : list ascii) :
  Forall (λ s, s ≠ StNone) (matchStatusOf w guess).
Proof.
  apply Forall_lookup. intros i s Hs.
  pose proof (lookup_lt_Some _ _ _ Hs) as Hi.
  rewrite length_matchStatusOf in Hi.
  rewrite matchStatusOf_lookup in Hs by done.
  injection Hs as <-.
  destruct (exactAt _ _ _); [done|]. by destruct (takesLetter _ _ _ _).
Qed.

Lemma classify_nonempty (target guess : list ascii) :
  target ≠ [] → classify target guess = Some (matchStatusOf target guess).
Proof.
  intros H. unfold classify, renderGuessRow. simpl. by destruct target.
Qed.

Lemma classify_Some (target guess : list ascii) (ms : list MatchStatus) :
  classify target guess = Some ms →
  target ≠ [] ∧ ms = matchStatusOf target guess.
Proof.
  unfold classify, renderGuessRow. simpl.
  destruct target; [discriminate|]. intros [= <-]. done.
Qed.

Lemma exactAt_length (guess tw : list ascii) (i : nat) :
  exactAt guess tw i = true → (i < length tw)%nat ∧ (i < length guess)%nat.
Proof.
  unfold exactAt, strictEq, guessedLetter, guessLower.
  destruct (guess !! i) eqn:Hg; simpl; [|discriminate].
  destruct (tw !! i) eqn:Ht; [|discriminate].
  intros _. split; by eapply lookup_lt_Some.
Qed.

(** ** Letters credited and letters of the target *)

Lemma correctAt_matchedAt (w guess : list ascii) (c : ascii) (i : nat) :
  (i < Nat.max (length w) (length guess))%nat →
  correctAt (matchStatusOf w guess) guess c i
  = matchedAt guess (JS.toLowerCase w) c i.
Proof.
  intros Hi. unfold correctAt, matchedAt.
  rewrite matchStatusOf_lookup by done.
  unfold exactAt, strictEq, guessedLetter.
  destruct (guessLower guess i) as [g|], (JS.toLowerCase w !! i) as [t|];
    try destruct (takesLetter _ _ _ _);
    repeat case_bool_decide; simpl; congruence.
Qed.

Lemma matchedAt_length (guess tw : list ascii) (c : ascii) (i : nat) :
  (length tw ≤ i)%nat → matchedAt guess tw c i = false.
Proof.
  intros Hi. unfold matchedAt.
  rewrite (lookup_ge_None_2 tw i Hi). by rewrite bool_decide_false.
Qed.

Lemma matched_unmatched (guess tw : list ascii) (c : ascii) :
  (countUpto (matchedAt guess tw c) (length tw)
   + countUpto (unmatchedAt guess tw c) (length tw))%nat
  = occurrences c tw.
Proof.
  rewrite <- countUpto_occurrences, <- countUpto_or.
  - apply countUpto_ext. intros i _. unfold matchedAt, unmatchedAt.
    repeat case_bool_decide; simpl; tauto.
  - intros i _. unfold matchedAt, unmatchedAt.
    repeat case_bool_decide; simpl; tauto.
Qed.

Lemma wrong_le_unmatched (w guess : list ascii) (c : ascii) :
  (countUpto (wrongAt (matchStatusOf w guess) guess c)
     (Nat.max (length w) (length guess))
   ≤ countUpto (unmatchedAt guess (JS.toLowerCase w) c)
       (length (JS.toLowerCase w)))%nat.
Proof.
  destruct (matchStatusOf_inv w guess) as (_ & _ & Hleft).
  specialize (Hleft c). unfold leftAt in Hleft.
  rewrite countLetters_spec in Hleft. lia.
Qed.

Lemma credited_le_occurrences (w guess : list ascii) (c : ascii) :
  (credited c (matchStatusOf w guess) guess ≤ letterCount c w)%nat.
Proof.
  unfold credited, letterCount.
  rewrite length_matchStatusOf.
  set (n := Nat.max (length w) (length guess)).
  set (tw := JS.toLowerCase w).
  rewrite countUpto_or.
  2:{ intros i _. unfold correctAt, wrongAt.
      repeat case_bool_decide; simpl; congruence. }
  rewrite (countUpto_ext (correctAt _ _ _) (matchedAt guess tw (JS.lower c)))
    by (intros; by apply correctAt_matchedAt).
  rewrite (countUpto_ge (matchedAt guess tw (JS.lower c)) (length tw) n).
  - rewrite <- (matched_unmatched guess tw).
    pose proof (wrong_le_unmatched w guess (JS.lower c)). fold n tw in H. lia.
  - unfold tw, n. rewrite length_toLowerCase. lia.
  - intros i Hi. by apply matchedAt_length.
Qed.

(** * The claims *)

(** C4.  The guess "PPLEA" against the target "APPLE" is classified, cell
    by cell, wrong-position (present elsewhere), correct, wrong-position,
    wrong-position, wrong-position. *)
Theorem classify_APPLE_PPLEA :
  classify (JS.str "APPLE") (JS.str "PPLEA")
  = Some [WrongPosition; Correct; WrongPosition; WrongPosition;
          WrongPosition].
Proof. vm_compute. reflexivity. Qed.

(** C5.  The guess "ROAR" against the target "ERROR" gives a row of five
    cells: wrong-position, wrong-position, incorrect (absent),
    wrong-position, incorrect; the guess has no letter for the last cell,
    which is drawn as an empty place. *)
Theorem classify_ERROR_ROAR :
  let guess := JS.str "ROAR" in
  ∃ ms, classify (JS.str "ERROR") guess = Some ms
        ∧ ms = [WrongPosition; WrongPosition; Incorrect; WrongPosition;
                Incorrect]
        ∧ length ms = 5%nat
        ∧ guess !! 4%nat = None
        ∧ cellClass ms guess 4 = Render.BgRed500.
Proof. eexists. repeat split; vm_compute; reflexivity. Qed.

(** C3.  For every letter, the cells marked correct or wrong-position
    whose guessed letter is that letter are no more than the places of
    the letter in the target, letters being compared without regard to
    case. *)
Theorem credited_le_letterCount (target guess : list ascii)
    (ms : list MatchStatus) (c : ascii) :
  classify target guess = Some ms →
  (credited c ms guess ≤ letterCount c target)%nat.
Proof.
  intros H. apply classify_Some in H as [_ ->].
  apply credited_le_occurrences.
Qed.

Lemma credited_le_letterCount_witness :
  classify (JS.str "ERROR") (JS.str "ROARR")
  = Some [WrongPosition; WrongPosition; Incorrect; WrongPosition; Correct]
  ∧ (credited "r"
       [WrongPosition; WrongPosition; Incorrect; WrongPosition; Correct]
       (JS.str "ROARR")
     ≤ letterCount "r" (JS.str "ERROR"))%nat.
Proof.
  assert (H : classify (JS.str "ERROR") (JS.str "ROARR")
              = Some [WrongPosition; WrongPosition; Incorrect;
                      WrongPosition; Correct])
    by (vm_compute; reflexivity).
  split; [exact H|].
  exact (credited_le_letterCount (JS.str "ERROR") (JS.str "ROARR") _ "r" H).
Defined.

(** C8, as the scorer has it.  For every non-empty target and every
    guess (empty, shorter, longer, of any characters) the scorer returns
    a row of [max (length target) (length guess)] cells, each of them
    marked correct, wrong-position or incorrect.  On an empty target it
    returns [null] instead. *)
Theorem classify_total (target guess : list ascii) :
  target ≠ [] →
  ∃ ms, classify target guess = Some ms
        ∧ length ms = Nat.max (length target) (length guess)
        ∧ Forall (λ s, s = Correct ∨ s = WrongPosition ∨ s = Incorrect)
            ms.
Proof.
  intros Hne. exists (matchStatusOf target guess).
  split; [by apply classify_nonempty|].
  split; [apply length_matchStatusOf|].
  eapply Forall_impl; [apply matchStatusOf_marked|].
  intros [] H; tauto.
Qed.

Lemma classify_total_witness :
  JS.str "cat" ≠ []
  ∧ ∃ ms, classify (JS.str "cat") [] = Some ms
          ∧ length ms = Nat.max (length (JS.str "cat")) (length (@nil ascii))
          ∧ Forall (λ s, s = Correct ∨ s = WrongPosition ∨ s = Incorrect)
              ms.
Proof.
  assert (H : JS.str "cat" ≠ []) by (vm_compute; discriminate).
  split; [exact H | exact (classify_total (JS.str "cat") [] H)].
Defined.

(** C8 as stated fails on the empty target: the scorer returns [null],
    not a row of one cell. *)
Lemma classify_empty_target :
  classify [] (JS.str "a") = None
  ∧ ¬ ∃ ms, classify [] (JS.str "a") = Some ms
            ∧ length ms = Nat.max (length (@nil ascii)) (length (JS.str "a")).
Proof.
  split; [reflexivity|]. intros (ms & H & _). discriminate H.
Qed.

(** C1 as stated fails: the third letter of "xxa" lies past the end of
    the target "ab" and is marked wrong-position, the target holding an
    "a" that no cell has matched. *)
Lemma extra_cell_wrong_position :
  let target := JS.str "ab" in
  let guess := JS.str "xxa" in
  (length target ≤ 2 < length guess)%nat
  ∧ ∃ ms, classify target guess = Some ms
          ∧ ms !! 2%nat = Some WrongPosition
          ∧ ms !! 2%nat ≠ Some Incorrect.
Proof.
  split; [vm_compute; lia|].
  exists [Incorrect; Incorrect; WrongPosition].
  split; [vm_compute; reflexivity|]. split; [reflexivity|discriminate].
Qed.

(** ** Lists and statuses *)

Lemma lookup_dom_length {A : Type} (l : list A) (n : nat) :
  (∀ i, (i < n)%nat → is_Some (l !! i)) →
  (∀ i, (n ≤ i)%nat → l !! i = None) →
  length l = n.
Proof.
  intros Hin Hout.
  destruct (Nat.lt_trichotomy (length l) n) as [Hlt|[Heq|Hgt]]; [|done|].
  - destruct (Hin (length l) Hlt) as [x Hx].
    apply lookup_lt_Some in Hx. lia.
  - pose proof (Hout n ltac:(lia)) as Hn.
    apply lookup_ge_None_1 in Hn. lia.
Qed.

Lemma ofStatus_markOf (ms : list MatchStatus) :
  Forall (λ s, s ≠ StNone) ms →
  Spec.ofStatus <$> ms = Some <$> (Simulation.markOf <$> ms).
Proof.
  induction 1 as [|s ms Hs _ IH]; [reflexivity|].
  rewrite !fmap_cons, IH. f_equal. by destruct s.
Qed.

(** ** The variants that colour each cell on its own *)

Lemma lookup_below {A : Type} (l : list A) (i : nat) :
  (if (i <? length l)%nat then l !! i else None) = l !! i.
Proof.
  destruct (Nat.ltb_spec i (length l)); [done|].
  symmetry. by apply lookup_ge_None_2.
Qed.

Lemma WordGame_row (currentWord guess : list ascii) :
  WordGame.renderGuessRow currentWord guess
  = Positional.row currentWord guess.
Proof.
  unfold WordGame.renderGuessRow, Positional.row.
  apply list_fmap_ext. intros _ i _.
  unfold WordGame.cellClass, Positional.cell. rewrite lookup_below.
  by destruct (currentWord !! i), (guess !! i).
Qed.

Lemma PairGame_row (currentPair : option WordPair) (guess : list ascii) :
  PairGame.renderGuessRow currentPair guess
  = Positional.row (PairGame.target currentPair) guess.
Proof.
  unfold PairGame.renderGuessRow, Positional.row.
  assert (Hl : PairGame.wordLength currentPair
               = length (PairGame.target currentPair))
    by (by destruct currentPair).
  rewrite Hl. apply list_fmap_ext. intros _ i _.
  unfold PairGame.cellClass, Positional.cell. rewrite Hl.
  assert (He : (currentPair ≫= λ p, word p !! i)
               = PairGame.target currentPair !! i)
    by (by destruct currentPair).
  rewrite He, lookup_below.
  by destruct (PairGame.target currentPair !! i), (guess !! i).
Qed.

Lemma row_lookup (target guess : list ascii) (i : nat) :
  Positional.row target guess !! i
  = if bool_decide (i < Nat.max (length target) (length guess))%nat
    then Some (Positional.cell (target !! i) (guess !! i))
    else None.
Proof.
  unfold Positional.row. rewrite list_lookup_fmap.
  case_bool_decide as Hi.
  - by rewrite lookup_seq_lt.
  - by rewrite lookup_seq_ge by lia.
Qed.

Lemma row_green (target guess : list ascii) (i : nat) :
  Positional.row target guess !! i = Some Render.BgGreen500
  ↔ Positional.sameLetter target guess i = true.
Proof.
  rewrite row_lookup. unfold Positional.cell, Positional.sameLetter.
  destruct (target !! i) as [t|] eqn:Ht, (guess !! i) as [g|] eqn:Hg;
    repeat case_bool_decide; split; try done.
  exfalso. apply lookup_lt_Some in Ht. lia.
Qed.

Lemma row_no_yellow (target guess : list ascii) :
  Forall (λ cls, cls ≠ Render.BgYellow500) (Positional.row target guess).
Proof.
  apply Forall_lookup. intros i cls. rewrite row_lookup.
  case_bool_decide; [|done]. intros [= <-]. unfold Positional.cell.
  destruct (target !! i), (guess !! i); try case_bool_decide; done.
Qed.

(** C9.  The variants of [default.tsx] and of the second and third
    flash-card components colour each cell from the target letter and
    the guessed letter of its own position alone: a cell is green
    exactly when the two letters are there and equal whatever their
    case, and no cell is ever yellow (wrong position).  On "APPLE" and
    "PPLEA" they show one green cell and four grey ones, where the
    letter-count variant marks four cells wrong-position. *)
Theorem variants_cell_by_cell (currentWord guess : list ascii)
    (currentPair : option WordPair) :
  let row1 := WordGame.renderGuessRow currentWord guess in
  let row2 := PairGame.renderGuessRow currentPair guess in
  (row1 = Positional.row currentWord guess
   ∧ row2 = Positional.row (PairGame.target currentPair) guess)
  ∧ (∀ i, row1 !! i = Some Render.BgGreen500
          ↔ Positional.sameLetter currentWord guess i = true)
  ∧ (∀ i, row2 !! i = Some Render.BgGreen500
          ↔ Positional.sameLetter (PairGame.target currentPair) guess i
            = true)
  ∧ Forall (λ cls, cls ≠ Render.BgYellow500) row1
  ∧ Forall (λ cls, cls ≠ Render.BgYellow500) row2
  ∧ WordGame.renderGuessRow (JS.str "APPLE") (JS.str "PPLEA")
    = [Render.BgGray300; Render.BgGreen500; Render.BgGray300;
       Render.BgGray300; Render.BgGray300].
Proof.
  intros row1 row2. unfold row1, row2.
  rewrite WordGame_row, PairGame_row.
  split; [done|].
  split; [intros i; apply row_green|].
  split; [intros i; apply row_green|].
  split; [apply row_no_yellow|].
  split; [apply row_no_yellow|].
  vm_compute. reflexivity.
Qed.

(** ** The challenge tracker *)

Lemma call_day_range (p : Challenge.UserChallengeProgress)
    (c : Challenge.Call) :
  1 ≤ Challenge.current_day p ≤ 28 →
  ∃ q, Challenge.call (Some p) c = Some q
       ∧ 1 ≤ Challenge.current_day q ≤ 28.
Proof.
  intros Hp. destruct c as [env t nt|env t|]; simpl.
  - eexists. split; [reflexivity|]. simpl. lia.
  - eexists. split; [reflexivity|]. simpl. lia.
  - destruct (Z.leb_spec 28 (Challenge.current_day p)).
    + exists p. split; [reflexivity|lia].
    + eexists. split; [reflexivity|]. simpl. lia.
Qed.

Lemma calls_day_range (cs : list Challenge.Call)
    (p : Challenge.UserChallengeProgress) :
  1 ≤ Challenge.current_day p ≤ 28 →
  ∃ q, Challenge.calls (Some p) cs = Some q
       ∧ 1 ≤ Challenge.current_day q ≤ 28.
Proof.
  revert p. induction cs as [|c cs IH]; intros p Hp.
  - exists p. by split.
  - destruct (call_day_range p c Hp) as (q & Hq & Hr).
    unfold Challenge.calls. simpl. rewrite Hq. by apply IH.
Qed.

(** C10.  [advanceDay] gives back its argument when [current_day] is 28 or
    more, and otherwise adds one to [current_day] and keeps every other
    field; so after [startChallenge] and any sequence of [completeTask],
    [uncompleteTask] and [advanceDay] calls, [current_day] lies between 1
    and 28. *)
Theorem current_day_range :
  (∀ p, 28 ≤ Challenge.current_day p →
        Challenge.advanceDay (Some p) = Some p)
  ∧ (∀ p, Challenge.current_day p < 28 →
        ∃ q, Challenge.advanceDay (Some p) = Some q
             ∧ Challenge.current_day q = Challenge.current_day p + 1
             ∧ Challenge.id q = Challenge.id p
             ∧ Challenge.user_id q = Challenge.user_id p
             ∧ Challenge.challenge_id q = Challenge.challenge_id p
             ∧ Challenge.level_id q = Challenge.level_id p
             ∧ Challenge.start_date q = Challenge.start_date p
             ∧ Challenge.task_completions q = Challenge.task_completions p)
  ∧ (∀ env userId challengeId levelId cs,
        ∃ q, Challenge.calls
               (Some (Challenge.startChallenge env userId challengeId levelId))
               cs = Some q
             ∧ 1 ≤ Challenge.current_day q ≤ 28).
Proof.
  split; [|split].
  - intros p Hp. simpl.
    destruct (Z.leb_spec 28 (Challenge.current_day p)); [done|lia].
  - intros p Hp. simpl.
    destruct (Z.leb_spec 28 (Challenge.current_day p)); [lia|].
    eexists. split; [reflexivity|]. simpl. done.
  - intros env u c l cs. apply calls_day_range. simpl. lia.
Qed.

Lemma current_day_range_witness :
  let env := {| Challenge.random_id := "k3x9"; Challenge.now := 0 |} in
  let first := Challenge.startChallenge env "u" "c" "l" in
  let last := Challenge.withDay first 28 in
  (28 ≤ Challenge.current_day last
   ∧ Challenge.advanceDay (Some last) = Some last)
  ∧ (Challenge.current_day first < 28
     ∧ ∃ q, Challenge.advanceDay (Some first) = Some q
            ∧ Challenge.current_day q = Challenge.current_day first + 1
            ∧ Challenge.id q = Challenge.id first
            ∧ Challenge.user_id q = Challenge.user_id first
            ∧ Challenge.challenge_id q = Challenge.challenge_id first
            ∧ Challenge.level_id q = Challenge.level_id first
            ∧ Challenge.start_date q = Challenge.start_date first
            ∧ Challenge.task_completions q
              = Challenge.task_completions first).
Proof.
  intros env first last.
  assert (H28 : 28 ≤ Challenge.current_day last) by (simpl; lia).
  assert (H1 : Challenge.current_day first < 28) by (simpl; lia).
  split.
  - split; [exact H28 | exact (proj1 current_day_range last H28)].
  - split; [exact H1 | exact (proj1 (proj2 current_day_range) first H1)].
Defined.

(** * The challenge tracker: completions and task lists *)

Lemma entry_completeTask (env : Challenge.Env)
    (p : Challenge.UserChallengeProgress) (t : string) (n : option string)
    (d : Z) (t' : string) :
  Tasks.entry (Challenge.completeTask env (Some p) t n) d t'
  = if bool_decide (d = Challenge.current_day p ∧ t' = t)
    then Some {| Challenge.completed := true;
                 Challenge.completed_at := Some (Challenge.now env);
                 Challenge.notes := n |}
    else Tasks.entry p d t'.
Proof.
  unfold Tasks.entry. simpl.
  destruct (decide (d = Challenge.current_day p)) as [->|Hd].
  - rewrite lookup_insert_eq. simpl.
    destruct (decide (t' = t)) as [->|Ht].
    + rewrite bool_decide_true by done. apply lookup_insert_eq.
    + rewrite bool_decide_false by tauto.
      rewrite lookup_insert_ne by done.
      by destruct (Challenge.task_completions p !! Challenge.current_day p).
  - rewrite bool_decide_false by tauto. by rewrite lookup_insert_ne.
Qed.

Lemma entry_uncompleteTask (env : Challenge.Env)
    (p : Challenge.UserChallengeProgress) (t : string) (d : Z)
    (t' : string) :
  Tasks.entry (Challenge.uncompleteTask env (Some p) t) d t'
  = if bool_decide (d = Challenge.current_day p ∧ t' = t) then None
    else Tasks.entry p d t'.
Proof.
  unfold Tasks.entry. simpl.
  destruct (decide (d = Challenge.current_day p)) as [->|Hd].
  - rewrite lookup_insert_eq. simpl.
    destruct (decide (t' = t)) as [->|Ht].
    + rewrite bool_decide_true by done. apply lookup_delete_eq.
    + rewrite bool_decide_false by tauto.
      rewrite lookup_delete_ne by done.
      by destruct (Challenge.task_completions p !! Challenge.current_day p).
  - rewrite bool_decide_false by tauto. by rewrite lookup_insert_ne.
Qed.

(** X1.  [completeTask] records the task under the current day, completed,
    with the time of the call and the notes given; it leaves every other
    entry of every day, and the day itself, as they were. *)
Theorem completeTask_records (env : Challenge.Env)
    (p : Challenge.UserChallengeProgress) (t : string) (n : option string) :
  let q := Challenge.completeTask env (Some p) t n in
  Tasks.entry q (Challenge.current_day p) t
  = Some {| Challenge.completed := true;
            Challenge.completed_at := Some (Challenge.now env);
            Challenge.notes := n |}
  ∧ (∀ d t', ¬ (d = Challenge.current_day p ∧ t' = t) →
             Tasks.entry q d t' = Tasks.entry p d t')
  ∧ Challenge.current_day q = Challenge.current_day p.
Proof.
  intros q. unfold q. split; [|split].
  - rewrite entry_completeTask. by rewrite bool_decide_true.
  - intros d t' H. rewrite entry_completeTask.
    by rewrite bool_decide_false.
  - reflexivity.
Qed.

(** X2.  [uncompleteTask] removes the entry of the task under the current day
    and leaves every other entry, and the day itself, as they were. *)
Theorem uncompleteTask_removes (env : Challenge.Env)
    (p : Challenge.UserChallengeProgress) (t : string) :
  let q := Challenge.uncompleteTask env (Some p) t in
  Tasks.entry q (Challenge.current_day p) t = None
  ∧ (∀ d t', ¬ (d = Challenge.current_day p ∧ t' = t) →
             Tasks.entry q d t' = Tasks.entry p d t')
  ∧ Challenge.current_day q = Challenge.current_day p.
Proof.
  intros q. unfold q. split; [|split].
  - rewrite entry_uncompleteTask. by rewrite bool_decide_true.
  - intros d t' H. rewrite entry_uncompleteTask.
    by rewrite bool_decide_false.
  - reflexivity.
Qed.

(** X3.  Undoing a completion gives back the progress it was made on, when
    the day had a record of completions without the task: the round trip
    is exact. *)
Theorem uncomplete_complete (env env' : Challenge.Env)
    (p : Challenge.UserChallengeProgress) (t : string) (n : option string)
    (m : gmap string Challenge.TaskCompletion) :
  Challenge.task_completions p !! Challenge.current_day p = Some m →
  m !! t = None →
  Challenge.uncompleteTask env'
    (Some (Challenge.completeTask env (Some p) t n)) t = p.
Proof.
  intros Hm Ht. destruct p as [i u c l s d tc]. simpl in *.
  unfold Challenge.withCompletions. simpl. f_equal.
  rewrite lookup_insert_eq. simpl. rewrite Hm. simpl.
  rewrite insert_insert_eq, delete_insert_eq.
  rewrite delete_id by done. by apply insert_id.
Qed.

Lemma uncomplete_complete_witness :
  Challenge.task_completions Sample.progress
    !! Challenge.current_day Sample.progress = Some ∅
  ∧ (∅ : gmap string Challenge.TaskCompletion) !! "walk" = None
  ∧ Challenge.uncompleteTask Sample.env
      (Some (Challenge.completeTask Sample.env (Some Sample.progress)
               "walk" None)) "walk"
    = Sample.progress.
Proof.
  assert (H1 : Challenge.task_completions Sample.progress
                 !! Challenge.current_day Sample.progress = Some ∅)
    by reflexivity.
  assert (H2 : (∅ : gmap string Challenge.TaskCompletion) !! "walk" = None)
    by reflexivity.
  split; [exact H1|]. split; [exact H2|].
  exact (uncomplete_complete Sample.env Sample.env Sample.progress
           "walk" None ∅ H1 H2).
Defined.

(** X4.  Completing a task again replaces what was recorded for it: after an
    uncompletion, or after an earlier completion, the result is the one
    of the last completion alone. *)
Theorem completeTask_overrides (env env' : Challenge.Env)
    (p : Challenge.UserChallengeProgress) (t : string)
    (n n' : option string) :
  Challenge.completeTask env
    (Some (Challenge.uncompleteTask env' (Some p) t)) t n
  = Challenge.completeTask env (Some p) t n
  ∧ Challenge.completeTask env
      (Some (Challenge.completeTask env' (Some p) t n')) t n
    = Challenge.completeTask env (Some p) t n.
Proof.
  destruct p as [i u c l s d tc].
  unfold Challenge.completeTask, Challenge.uncompleteTask,
    Challenge.withCompletions. simpl.
  split; f_equal; rewrite lookup_insert_eq; simpl;
    rewrite insert_insert_eq; f_equal.
  - apply insert_delete_eq.
  - apply insert_insert_eq.
Qed.

Lemma weekOf_bounds (d : Z) :
  (Tasks.weekOf d - 1) * 7 + 1 ≤ d < (Tasks.weekOf d - 1) * 7 + 1 + 7.
Proof.
  unfold Tasks.weekOf.
  pose proof (Z.div_mod (- d) 7 ltac:(lia)).
  pose proof (Z.mod_pos_bound (- d) 7 ltac:(lia)). lia.
Qed.

Lemma filter3_length {A : Type} (P Q R : A → Prop)
    `{∀ x, Decision (P x)} `{∀ x, Decision (Q x)} `{∀ x, Decision (R x)}
    (l : list A) :
  (∀ x, P x → Q x → False) → (∀ x, P x → R x → False) →
  (∀ x, Q x → R x → False) →
  (length (filter P l) + length (filter Q l) + length (filter R l)
   ≤ length l)%nat.
Proof.
  intros HPQ HPR HQR. induction l as [|x l IH]; [simpl; lia|].
  rewrite !filter_cons.
  destruct (decide (P x)), (decide (Q x)), (decide (R x)); simpl;
    try lia; exfalso; eauto.
Qed.

(** Where a task of the list of a day comes from. *)
Lemma getUserDayTasks_elem (p : Challenge.UserChallengeProgress)
    (ts : list Tasks.TaskTemplate) (day : option Z) (dt : Tasks.DayTask) :
  let targetDay :=
    match day with
    | Some d => if d =? 0 then Challenge.current_day p else d
    | None => Challenge.current_day p
    end in
  dt ∈ Tasks.getUserDayTasks (Some p) ts day →
  ∃ t, t ∈ ts
       ∧ ((Tasks.type (Tasks.schedule t) = Tasks.Daily
           ∧ targetDay ∈ Tasks.occurrences (Tasks.schedule t)
           ∧ dt = Tasks.dailyTask p targetDay t)
          ∨ (Tasks.type (Tasks.schedule t) = Tasks.Weekly
             ∧ Tasks.weekOf targetDay ∈ Tasks.occurrences (Tasks.schedule t)
             ∧ dt = Tasks.weeklyTask p targetDay
                      ((Tasks.weekOf targetDay - 1) * 7 + 1) t)
          ∨ (Tasks.type (Tasks.schedule t) = Tasks.Monthly
             ∧ 1 ∈ Tasks.occurrences (Tasks.schedule t)
             ∧ dt = Tasks.monthlyTask p targetDay t)).
Proof.
  intros targetDay. unfold Tasks.getUserDayTasks. fold targetDay.
  rewrite !elem_of_app, !list_elem_of_fmap.
  intros [(t & -> & Ht)|[(t & -> & Ht)|(t & -> & Ht)]];
    apply list_elem_of_filter in Ht as [[Hty Hocc] Hin];
    exists t; split; try done; tauto.
Qed.

(** X5.  The list of a day names every template at most once: it is no
    longer than the list of templates, and each of its tasks is built
    on one of them. *)
Theorem getUserDayTasks_bounded
    (progress : option Challenge.UserChallengeProgress)
    (ts : list Tasks.TaskTemplate) (day : option Z) :
  (length (Tasks.getUserDayTasks progress ts day) ≤ length ts)%nat
  ∧ ∀ dt, dt ∈ Tasks.getUserDayTasks progress ts day →
          Tasks.template dt ∈ ts.
Proof.
  destruct progress as [p|]; [|split; [simpl; lia|intros dt H; inversion H]].
  split.
  - unfold Tasks.getUserDayTasks. rewrite !length_app, !length_fmap.
    rewrite Nat.add_assoc. apply filter3_length; intros x [H1 _] [H2 _];
      congruence.
  - intros dt Hdt. apply getUserDayTasks_elem in Hdt as (t & Ht & H).
    destruct H as [(_ & _ & ->)|[(_ & _ & ->)|(_ & _ & ->)]]; exact Ht.
Qed.

(** X6.  Once a task is completed, the list of the current day shows it
    completed, whatever its schedule: as a daily task of the day, as a
    weekly task of the week, as a monthly task. *)
Theorem completed_task_shown (env : Challenge.Env)
    (p : Challenge.UserChallengeProgress) (t : string) (n : option string)
    (ts : list Tasks.TaskTemplate) (dt : Tasks.DayTask) :
  1 ≤ Challenge.current_day p →
  dt ∈ Tasks.getUserDayTasks
         (Some (Challenge.completeTask env (Some p) t n)) ts None →
  Tasks.id (Tasks.template dt) = t →
  Tasks.completed dt = true.
Proof.
  intros Hday Hdt Hid.
  set (q := Challenge.completeTask env (Some p) t n) in *.
  set (d := Challenge.current_day p).
  assert (Hdone : Tasks.completedOn q d t = true).
  { unfold Tasks.completedOn, q. rewrite entry_completeTask.
    by rewrite bool_decide_true. }
  apply getUserDayTasks_elem in Hdt as (tpl & _ & H).
  change (Challenge.current_day q) with d in H.
  destruct H as [(_ & _ & ->)|[(_ & _ & ->)|(_ & _ & ->)]];
    simpl in Hid; subst t;
    unfold Tasks.dailyTask, Tasks.weeklyTask, Tasks.monthlyTask;
    cbn [Tasks.completed].
  - exact Hdone.
  - apply existsb_exists. exists d. split.
    + apply list_elem_of_In. unfold Tasks.weekDays. apply elem_of_seqZ.
      pose proof (weekOf_bounds d). lia.
    + rewrite Hdone. rewrite andb_true_r. apply Z.leb_le. lia.
  - apply existsb_exists. exists d. split; [|exact Hdone].
    apply list_elem_of_In. unfold Tasks.monthDays. apply elem_of_seqZ.
    unfold d. lia.
Qed.

Lemma completed_task_shown_witness :
  let q := Challenge.completeTask Sample.env (Some Sample.progress)
             "plan" None in
  let dt := Tasks.weeklyTask q 3 1 (Sample.task "plan" Tasks.Weekly [1]) in
  1 ≤ Challenge.current_day Sample.progress
  ∧ dt ∈ Tasks.getUserDayTasks (Some q) Sample.templates None
  ∧ Tasks.id (Tasks.template dt) = "plan"
  ∧ Tasks.completed dt = true.
Proof.
  intros q dt.
  assert (H1 : 1 ≤ Challenge.current_day Sample.progress)
    by (vm_compute; discriminate).
  assert (H2 : dt ∈ Tasks.getUserDayTasks (Some q) Sample.templates None).
  { apply list_elem_of_lookup. exists 1%nat. vm_compute. reflexivity. }
  assert (H3 : Tasks.id (Tasks.template dt) = "plan") by reflexivity.
  split; [exact H1|]. split; [exact H2|]. split; [exact H3|].
  exact (completed_task_shown Sample.env Sample.progress "plan" None
           Sample.templates dt H1 H2 H3).
Defined.

(** X7.  After [uncompleteTask] the list of the current day shows the task,
    where it is a daily task, as not completed. *)
Theorem uncompleted_task_shown (env : Challenge.Env)
    (p : Challenge.UserChallengeProgress) (t : string)
    (ts : list Tasks.TaskTemplate) (dt : Tasks.DayTask) :
  dt ∈ Tasks.getUserDayTasks
         (Some (Challenge.uncompleteTask env (Some p) t)) ts None →
  Tasks.id (Tasks.template dt) = t →
  Tasks.type (Tasks.schedule (Tasks.template dt)) = Tasks.Daily →
  Tasks.completed dt = false
  ∧ Tasks.completedAt dt = None
  ∧ Tasks.notes dt = None.
Proof.
  intros Hdt Hid Hty.
  apply getUserDayTasks_elem in Hdt as (tpl & _ & H).
  destruct H as [(_ & _ & ->)|[(Hw & _ & ->)|(Hm & _ & ->)]];
    simpl in Hid, Hty; try congruence.
  subst t. unfold Tasks.dailyTask.
  cbn [Tasks.completed Tasks.completedAt Tasks.notes].
  rewrite entry_uncompleteTask. by rewrite bool_decide_true.
Qed.

Lemma uncompleted_task_shown_witness :
  let q := Challenge.uncompleteTask Sample.env
             (Some (Challenge.completeTask Sample.env (Some Sample.progress)
                      "walk" None)) "walk" in
  let dt := Tasks.dailyTask q 3 (Sample.task "walk" Tasks.Daily [1; 2; 3]) in
  dt ∈ Tasks.getUserDayTasks (Some q) Sample.templates None
  ∧ Tasks.id (Tasks.template dt) = "walk"
  ∧ Tasks.type (Tasks.schedule (Tasks.template dt)) = Tasks.Daily
  ∧ Tasks.completed dt = false
  ∧ Tasks.completedAt dt = None
  ∧ Tasks.notes dt = None.
Proof.
  intros q dt.
  assert (H1 : dt ∈ Tasks.getUserDayTasks (Some q) Sample.templates None).
  { apply list_elem_of_lookup. exists 0%nat. vm_compute. reflexivity. }
  assert (H2 : Tasks.id (Tasks.template dt) = "walk") by reflexivity.
  assert (H3 : Tasks.type (Tasks.schedule (Tasks.template dt)) = Tasks.Daily)
    by reflexivity.
  split; [exact H1|]. split; [exact H2|]. split; [exact H3|].
  exact (uncompleted_task_shown Sample.env
           (Challenge.completeTask Sample.env (Some Sample.progress)
              "walk" None)
           "walk" Sample.templates dt H1 H2 H3).
Defined.

Lemma rateStep_inv (p : Challenge.UserChallengeProgress)
    (ts : list Tasks.TaskTemplate) (st : Z * Z) (day : Z) :
  0 ≤ st.2 ≤ st.1 →
  0 ≤ (Tasks.rateStep p ts st day).2 ≤ (Tasks.rateStep p ts st day).1.
Proof.
  intros H. unfold Tasks.rateStep. cbn [fst snd].
  set (l := Tasks.getUserDayTasks (Some p) ts (Some day)).
  pose proof (length_filter
    (λ task, Tasks.completedOn p day (Tasks.id (Tasks.template task)) = true)
    l). lia.
Qed.

(** X8.  The tasks [getCompletionRate] counts as completed are never more
    than the tasks it counts, and never fewer than none: its rate lies
    between 0 and 1. *)
Theorem completionCounts_range (p : Challenge.UserChallengeProgress)
    (ts : list Tasks.TaskTemplate) :
  0 ≤ (Tasks.completionCounts p ts).2 ≤ (Tasks.completionCounts p ts).1.
Proof.
  unfold Tasks.completionCounts.
  generalize (seqZ 1 (if Challenge.current_day p =? 0 then 1
                      else Challenge.current_day p)).
  intros l.
  assert (H : 0 ≤ ((0, 0) : Z * Z).2 ≤ ((0, 0) : Z * Z).1) by (simpl; lia).
  revert H. generalize ((0, 0) : Z * Z).
  induction l as [|d l IH]; intros st H; simpl; [done|].
  apply IH. by apply rateStep_inv.
Qed.

Lemma existsb_find_ext {A : Type} (f g : A → bool) (l : list A) :
  (∀ x, f x = g x) → existsb f l = existsb g l ∧ find f l = find g l.
Proof.
  intros H. induction l as [|x l [IH1 IH2]]; [done|].
  simpl. by rewrite H, IH1, IH2.
Qed.

Lemma dayTasks_ext (p q : Challenge.UserChallengeProgress)
    (tpl : Tasks.TaskTemplate) :
  (∀ d, Tasks.entry q d (Tasks.id tpl) = Tasks.entry p d (Tasks.id tpl)) →
  (∀ d, Tasks.dailyTask q d tpl = Tasks.dailyTask p d tpl)
  ∧ (∀ d w, Tasks.weeklyTask q d w tpl = Tasks.weeklyTask p d w tpl)
  ∧ (∀ d, Tasks.monthlyTask q d tpl = Tasks.monthlyTask p d tpl).
Proof.
  intros He.
  assert (Hc : ∀ d, Tasks.completedOn q d (Tasks.id tpl)
                    = Tasks.completedOn p d (Tasks.id tpl))
    by (intros d; unfold Tasks.completedOn; by rewrite He).
  assert (Hf : ∀ A (f : Challenge.TaskCompletion → option A) c,
            Tasks.fromCompletionDay q (Tasks.id tpl) f c
            = Tasks.fromCompletionDay p (Tasks.id tpl) f c).
  { intros A f [d|]; [|done]. unfold Tasks.fromCompletionDay.
    by rewrite He. }
  split; [|split].
  - intros d. unfold Tasks.dailyTask. by rewrite He.
  - intros d w. unfold Tasks.weeklyTask. rewrite !Hf.
    destruct (existsb_find_ext
      (λ weekDay, (weekDay <=? d)
                  && Tasks.completedOn q weekDay (Tasks.id tpl))
      (λ weekDay, (weekDay <=? d)
                  && Tasks.completedOn p weekDay (Tasks.id tpl))
      (Tasks.weekDays w)) as [-> ->]; [|done].
    intros x. by rewrite Hc.
  - intros d. unfold Tasks.monthlyTask. rewrite !Hf.
    destruct (existsb_find_ext
      (λ day, Tasks.completedOn q day (Tasks.id tpl))
      (λ day, Tasks.completedOn p day (Tasks.id tpl))
      (Tasks.monthDays d)) as [-> ->]; [|done].
    intros x. apply Hc.
Qed.

Lemma getUserDayTasks_ext (p q : Challenge.UserChallengeProgress)
    (ts : list Tasks.TaskTemplate) (day : option Z) :
  Challenge.current_day q = Challenge.current_day p →
  (∀ tpl d, tpl ∈ ts →
     Tasks.entry q d (Tasks.id tpl) = Tasks.entry p d (Tasks.id tpl)) →
  Tasks.getUserDayTasks (Some q) ts day
  = Tasks.getUserDayTasks (Some p) ts day.
Proof.
  intros Hd He. unfold Tasks.getUserDayTasks. rewrite Hd.
  f_equal; [|f_equal]; apply list_fmap_ext; intros i tpl Htpl;
    apply list_elem_of_lookup_2, list_elem_of_filter in Htpl as [_ Hin];
    apply dayTasks_ext; intros d; by apply He.
Qed.

(** X9.  Completing or uncompleting a task changes nothing in what the list
    of any day tells of the templates with another identifier. *)
Theorem other_tasks_untouched (env : Challenge.Env)
    (p : Challenge.UserChallengeProgress) (t : string) (n : option string)
    (ts : list Tasks.TaskTemplate) (day : option Z) :
  Forall (λ tpl, Tasks.id tpl ≠ t) ts →
  Tasks.getUserDayTasks (Some (Challenge.completeTask env (Some p) t n))
    ts day
  = Tasks.getUserDayTasks (Some p) ts day
  ∧ Tasks.getUserDayTasks (Some (Challenge.uncompleteTask env (Some p) t))
      ts day
    = Tasks.getUserDayTasks (Some p) ts day.
Proof.
  intros Hts. rewrite Forall_forall in Hts.
  split; apply getUserDayTasks_ext; try reflexivity; intros tpl d Hin.
  - rewrite entry_completeTask, bool_decide_false; [done|].
    intros [_ H]. by apply (Hts tpl).
  - rewrite entry_uncompleteTask, bool_decide_false; [done|].
    intros [_ H]. by apply (Hts tpl).
Qed.

Lemma other_tasks_untouched_witness :
  let ts := [Sample.task "plan" Tasks.Weekly [1];
             Sample.task "review" Tasks.Monthly [1]] in
  Forall (λ tpl, Tasks.id tpl ≠ "walk") ts
  ∧ Tasks.getUserDayTasks
      (Some (Challenge.completeTask Sample.env (Some Sample.progress)
               "walk" None)) ts None
    = Tasks.getUserDayTasks (Some Sample.progress) ts None
  ∧ Tasks.getUserDayTasks
      (Some (Challenge.uncompleteTask Sample.env (Some Sample.progress)
               "walk")) ts None
    = Tasks.getUserDayTasks (Some Sample.progress) ts None.
Proof.
  intros ts.
  assert (H : Forall (λ tpl, Tasks.id tpl ≠ "walk") ts)
    by (repeat constructor; discriminate).
  split; [exact H|].
  exact (other_tasks_untouched Sample.env Sample.progress "walk" None ts
           None H).
Defined.

(** * The flags of a task list *)

Lemma weekOf_unique (w x : Z) :
  (w - 1) * 7 + 1 ≤ x < (w - 1) * 7 + 1 + 7 → Tasks.weekOf x = w.
Proof.
  intros H. unfold Tasks.weekOf.
  assert (E : (- x) `div` 7 = - w); [|lia].
  symmetry. apply (Z.div_unique (- x) 7 (- w) (- x + 7 * w)); lia.
Qed.

(** X10.  What the [completed] flag of a listed task says: a daily task was
    completed on the day asked for, a weekly task on a day of the same
    week up to that day, a monthly task on a day from the first up to
    that day. *)
Theorem completed_flag_meaning (p : Challenge.UserChallengeProgress)
    (ts : list Tasks.TaskTemplate) (d : Z) (dt : Tasks.DayTask) :
  d ≠ 0 →
  dt ∈ Tasks.getUserDayTasks (Some p) ts (Some d) →
  let tid := Tasks.id (Tasks.template dt) in
  match Tasks.type (Tasks.schedule (Tasks.template dt)) with
  | Tasks.Daily =>
      Tasks.completed dt = true ↔ Tasks.completedOn p d tid = true
  | Tasks.Weekly =>
      Tasks.completed dt = true
      ↔ ∃ d0, Tasks.weekOf d0 = Tasks.weekOf d ∧ d0 ≤ d
              ∧ Tasks.completedOn p d0 tid = true
  | Tasks.Monthly =>
      Tasks.completed dt = true
      ↔ ∃ d0, 1 ≤ d0 ≤ d ∧ Tasks.completedOn p d0 tid = true
  end.
Proof.
  intros Hd Hdt tid. unfold tid. clear tid.
  apply getUserDayTasks_elem in Hdt as (t & _ & H).
  destruct (Z.eqb_spec d 0) as [|_]; [done|].
  destruct H as [(Hty & _ & ->)|[(Hty & _ & ->)|(Hty & _ & ->)]];
    unfold Tasks.dailyTask, Tasks.weeklyTask, Tasks.monthlyTask;
    cbn [Tasks.completed Tasks.template]; rewrite Hty.
  - done.
  - rewrite existsb_exists. split.
    + intros (d0 & Hin & Hdone).
      apply list_elem_of_In, elem_of_seqZ in Hin.
      apply andb_true_iff in Hdone as [Hle Hc]. apply Z.leb_le in Hle.
      exists d0. split; [by apply weekOf_unique|done].
    + intros (d0 & Hw & Hle & Hc). exists d0. split.
      * apply list_elem_of_In, elem_of_seqZ. rewrite <- Hw.
        apply weekOf_bounds.
      * rewrite Hc, andb_true_r. by apply Z.leb_le.
  - rewrite existsb_exists. split.
    + intros (d0 & Hin & Hc).
      apply list_elem_of_In, elem_of_seqZ in Hin.
      exists d0. split; [lia|done].
    + intros (d0 & Hr & Hc). exists d0. split; [|done].
      apply list_elem_of_In, elem_of_seqZ. lia.
Qed.

Lemma completed_flag_meaning_witness :
  let p := Challenge.completeTask Sample.env (Some Sample.progress)
             "plan" None in
  let dt := Tasks.weeklyTask p 3 1 (Sample.task "plan" Tasks.Weekly [1]) in
  3 ≠ 0
  ∧ dt ∈ Tasks.getUserDayTasks (Some p) Sample.templates (Some 3)
  ∧ (Tasks.completed dt = true
     ↔ ∃ d0, Tasks.weekOf d0 = Tasks.weekOf 3 ∧ d0 ≤ 3
             ∧ Tasks.completedOn p d0 "plan" = true).
Proof.
  intros p dt.
  assert (H1 : 3 ≠ 0) by discriminate.
  assert (H2 : dt ∈ Tasks.getUserDayTasks (Some p) Sample.templates
                      (Some 3)).
  { apply list_elem_of_lookup. exists 1%nat. vm_compute. reflexivity. }
  split; [exact H1|]. split; [exact H2|].
  exact (completed_flag_meaning p Sample.templates 3 dt H1 H2).
Defined.

(** * Raising the target length *)

(** X11.  After [n] words spelt correctly the counter stands at [n mod 4] and
    the target length has grown by [n / 4]: every fourth correct word
    lengthens the words asked for by one letter. *)
Theorem level_after_successes (n : nat) (len : Z) :
  Nat.iter n LevelUp.onSuccess (0, len)
  = (Z.of_nat n `mod` 4, len + Z.of_nat n `div` 4).
Proof.
  induction n as [|n IH];
    [simpl; f_equal; Z.to_euclidean_division_equations; lia|].
  rewrite Nat.iter_succ, IH. unfold LevelUp.onSuccess.
  rewrite Nat2Z.inj_succ.
  destruct (Z.eqb_spec (Z.of_nat n `mod` 4 + 1) 4) as [E|E];
    f_equal; Z.to_euclidean_division_equations; lia.
Qed.

(** * Colours and letters of the letter-count row *)

Lemma takesLetter_guess (ms : list MatchStatus) (guess : list ascii)
    (lc0 : gmap ascii Z) (i : nat) :
  takesLetter ms guess lc0 i = true → is_Some (guess !! i).
Proof.
  unfold takesLetter, guessedLetter, guessLower.
  by destruct (guess !! i).
Qed.

(** X15.  The cells drawn red are exactly the places the guess has no letter
    for; every other cell is green, yellow or the darker grey. *)
Theorem red_cells_missing (target guess : list ascii)
    (ms : list MatchStatus) (i : nat) :
  classify target guess = Some ms →
  (i < length ms)%nat →
  (cellClass ms guess i = Render.BgRed500 ↔ (length guess ≤ i)%nat)
  ∧ ((i < length guess)%nat →
     cellClass ms guess i = Render.BgGreen500
     ∨ cellClass ms guess i = Render.BgYellow500
     ∨ cellClass ms guess i = Render.BgGray400).
Proof.
  intros H Hi. apply classify_Some in H as [_ ->].
  rewrite length_matchStatusOf in Hi.
  unfold cellClass. rewrite matchStatusOf_lookup by done.
  destruct (exactAt guess (JS.toLowerCase target) i) eqn:He.
  { apply exactAt_length in He as [_ Hg]. split; [|tauto].
    split; [done|lia]. }
  destruct (takesLetter _ _ _ _) eqn:Ht.
  { apply takesLetter_guess, lookup_lt_is_Some in Ht.
    split; [|tauto]. split; [done|lia]. }
  destruct (guess !! i) eqn:Hg.
  - apply lookup_lt_Some in Hg. split; [|tauto]. split; [done|lia].
  - apply lookup_ge_None in Hg. split; [done|lia].
Qed.

Lemma red_cells_missing_witness :
  let ms := [WrongPosition; WrongPosition; Incorrect; WrongPosition;
             Incorrect] in
  let guess := JS.str "ROAR" in
  classify (JS.str "ERROR") guess = Some ms
  ∧ (4 < length ms)%nat
  ∧ (cellClass ms guess 4 = Render.BgRed500 ↔ (length guess ≤ 4)%nat)
  ∧ ((4 < length guess)%nat →
     cellClass ms guess 4 = Render.BgGreen500
     ∨ cellClass ms guess 4 = Render.BgYellow500
     ∨ cellClass ms guess 4 = Render.BgGray400).
Proof.
  intros ms guess.
  assert (H1 : classify (JS.str "ERROR") guess = Some ms)
    by (vm_compute; reflexivity).
  assert (H2 : (4 < length ms)%nat) by (vm_compute; lia).
  split; [exact H1|]. split; [exact H2|].
  exact (red_cells_missing (JS.str "ERROR") guess ms 4 H1 H2).
Defined.

Lemma countUpto_pos (P : nat → bool) (k : nat) :
  (0 < countUpto P k)%nat → ∃ j, (j < k)%nat ∧ P j = true.
Proof.
  induction k as [|k IH]; simpl; [lia|].
  destruct (P k) eqn:Hk.
  - intros _. exists k. split; [lia|done].
  - intros H. destruct IH as (j & Hj & HP); [lia|].
    exists j. split; [lia|done].
Qed.

(** X16.  A cell marked wrong-position holds a letter that the target has at
    another place than this one; so a letter the target does not have is
    never marked wrong-position. *)
Theorem wrong_position_letter (target guess : list ascii)
    (ms : list MatchStatus) (i : nat) :
  classify target guess = Some ms →
  ms !! i = Some WrongPosition →
  ∃ g j, guess !! i = Some g
         ∧ j ≠ i
         ∧ JS.toLowerCase target !! j = Some (JS.lower g).
Proof.
  intros H Hw. apply classify_Some in H as [_ ->].
  pose proof (lookup_lt_Some _ _ _ Hw) as Hi.
  rewrite length_matchStatusOf in Hi.
  rewrite matchStatusOf_lookup in Hw by done.
  destruct (exactAt guess (JS.toLowerCase target) i) eqn:He; [done|].
  destruct (takesLetter _ _ _ _) eqn:Ht; [|done].
  unfold takesLetter, guessedLetter, guessLower in Ht.
  destruct (guess !! i) as [g|] eqn:Hg; [|done]. simpl in Ht.
  apply Z.ltb_lt in Ht. unfold leftAt in Ht.
  rewrite countLetters_spec in Ht.
  destruct (countUpto_pos
              (unmatchedAt guess (JS.toLowerCase target) (JS.lower g))
              (length (JS.toLowerCase target)) ltac:(lia))
    as (j & _ & Hj).
  unfold unmatchedAt in Hj. apply andb_true_iff in Hj as [Hj1 Hj2].
  apply bool_decide_eq_true in Hj1. apply bool_decide_eq_true in Hj2.
  exists g, j. split; [done|]. split; [|done].
  intros ->. apply Hj2. unfold guessLower. by rewrite Hg.
Qed.

Lemma wrong_position_letter_witness :
  let ms := [WrongPosition; Correct; WrongPosition; WrongPosition;
             WrongPosition] in
  classify (JS.str "APPLE") (JS.str "PPLEA") = Some ms
  ∧ ms !! 0%nat = Some WrongPosition
  ∧ ∃ g j, JS.str "PPLEA" !! 0%nat = Some g
           ∧ j ≠ 0%nat
           ∧ JS.toLowerCase (JS.str "APPLE") !! j = Some (JS.lower g).
Proof.
  intros ms.
  assert (H1 : classify (JS.str "APPLE") (JS.str "PPLEA") = Some ms)
    by (vm_compute; reflexivity).
  assert (H2 : ms !! 0%nat = Some WrongPosition) by reflexivity.
  split; [exact H1|]. split; [exact H2|].
  exact (wrong_position_letter (JS.str "APPLE") (JS.str "PPLEA") ms 0 H1 H2).
Defined.

(** * The leaderboard *)

Lemma insertDesc_perm (x : Leaderboard.Entry) (l : list Leaderboard.Entry) :
  Leaderboard.insertDesc x l ≡ₚ x :: l.
Proof.
  induction l as [|y l IH]; simpl; [done|].
  destruct (Leaderboard.score y <? Leaderboard.score x); [done|].
  rewrite IH. apply Permutation_swap.
Qed.

Lemma insertDesc_sorted (x : Leaderboard.Entry)
    (l : list Leaderboard.Entry) :
  StronglySorted Leaderboard.above l →
  StronglySorted Leaderboard.above (Leaderboard.insertDesc x l).
Proof.
  induction 1 as [|y l Hl IH Hy]; simpl.
  - repeat constructor.
  - destruct (Z.ltb_spec (Leaderboard.score y) (Leaderboard.score x)).
    + constructor; [by constructor|].
      constructor; [unfold Leaderboard.above; lia|].
      eapply Forall_impl; [exact Hy|].
      unfold Leaderboard.above. intros z Hz. lia.
    + constructor; [done|].
      rewrite insertDesc_perm. constructor; [|done].
      unfold Leaderboard.above. lia.
Qed.

Lemma sortDesc_snoc (l : list Leaderboard.Entry) (x : Leaderboard.Entry) :
  Leaderboard.sortDesc (l ++ [x])
  = Leaderboard.insertDesc x (Leaderboard.sortDesc l).
Proof. unfold Leaderboard.sortDesc. by rewrite foldl_app. Qed.

Lemma sortDesc_perm (l : list Leaderboard.Entry) :
  Leaderboard.sortDesc l ≡ₚ l.
Proof.
  induction l as [|x l IH] using rev_ind; [done|].
  rewrite sortDesc_snoc, insertDesc_perm, IH.
  by rewrite <- Permutation_cons_append.
Qed.

Lemma sortDesc_sorted (l : list Leaderboard.Entry) :
  StronglySorted Leaderboard.above (Leaderboard.sortDesc l).
Proof.
  induction l as [|x l IH] using rev_ind; [constructor|].
  rewrite sortDesc_snoc. by apply insertDesc_sorted.
Qed.

(** [insertDesc] puts the entry before the first entry of a smaller
    score. *)
Lemma insertDesc_split (x : Leaderboard.Entry)
    (l : list Leaderboard.Entry) :
  ∃ l1 l2, l = l1 ++ l2
           ∧ Leaderboard.insertDesc x l = l1 ++ x :: l2
           ∧ Forall (λ y, Leaderboard.score x ≤ Leaderboard.score y) l1
           ∧ (∀ y, y ∈ l → Leaderboard.score y < Leaderboard.score x →
                   (length l1 < length l)%nat).
Proof.
  induction l as [|y l (l1 & l2 & -> & E & Hge & Hlt)]; simpl.
  - exists [], []. repeat split; try done. intros y Hy. inversion Hy.
  - destruct (Z.ltb_spec (Leaderboard.score y) (Leaderboard.score x)).
    + exists [], (y :: l1 ++ l2). repeat split; try done.
      intros; simpl; lia.
    + exists (y :: l1), l2. rewrite E. repeat split; try done.
      * constructor; [lia|done].
      * intros z Hz Hs. simpl. apply elem_of_cons in Hz as [->|Hz]; [lia|].
        specialize (Hlt z Hz Hs). lia.
Qed.

Lemma insertDesc_last (x : Leaderboard.Entry)
    (l : list Leaderboard.Entry) :
  Forall (λ y, Leaderboard.score x ≤ Leaderboard.score y) l →
  Leaderboard.insertDesc x l = l ++ [x].
Proof.
  induction 1 as [|y l Hy _ IH]; simpl; [done|].
  destruct (Z.ltb_spec (Leaderboard.score y) (Leaderboard.score x)); [lia|].
  by rewrite IH.
Qed.

Lemma minOf_spec (s : Z) (scores : list Z) :
  JSMath.minOf s scores ∈ s :: scores
  ∧ ∀ x, x ∈ s :: scores → JSMath.minOf s scores ≤ x.
Proof.
  unfold JSMath.minOf. revert s.
  induction scores as [|y scores IH]; intros s; simpl.
  - split; [by constructor|]. intros x Hx.
    apply list_elem_of_singleton in Hx. lia.
  - destruct (IH (s `min` y)) as [Hin Hle]. split.
    + apply elem_of_cons in Hin as [Hin|Hin].
      * rewrite Hin. destruct (Z.min_spec s y) as [[_ ->]|[_ ->]].
        -- by constructor.
        -- constructor. by constructor.
      * do 2 constructor. done.
    + intros x Hx.
      assert (Hm : JSMath.minOf (s `min` y) scores ≤ s `min` y)
        by (apply Hle; by constructor).
      unfold JSMath.minOf in Hm.
      apply elem_of_cons in Hx as [->|Hx]; [lia|].
      apply elem_of_cons in Hx as [->|Hx]; [lia|].
      apply Hle. by constructor.
Qed.

Lemma handleSubmitHighScore_named (lb : list Leaderboard.Entry)
    (playerName : list ascii) (score : Z) :
  Leaderboard.trim playerName ≠ [] →
  Leaderboard.handleSubmitHighScore lb playerName score
  = take 5 (Leaderboard.sortDesc
              (lb ++ [{| Leaderboard.name := Leaderboard.trim playerName;
                         Leaderboard.score := score |}])).
Proof.
  intros H. unfold Leaderboard.handleSubmitHighScore.
  by destruct (Leaderboard.trim playerName).
Qed.

(** X18.  The leaderboard set after a named score holds at most five entries,
    in descending order of score, and they are the best of the old
    entries and the new one: every entry left out has a score no higher
    than every entry kept. *)
Theorem leaderboard_keeps_best (lb : list Leaderboard.Entry)
    (playerName : list ascii) (score : Z) :
  Leaderboard.trim playerName ≠ [] →
  let newEntry := {| Leaderboard.name := Leaderboard.trim playerName;
                     Leaderboard.score := score |} in
  let updated := Leaderboard.handleSubmitHighScore lb playerName score in
  (length updated ≤ 5)%nat
  ∧ StronglySorted Leaderboard.above updated
  ∧ ∃ rest, updated ++ rest ≡ₚ lb ++ [newEntry]
            ∧ ∀ a b, a ∈ updated → b ∈ rest →
                     Leaderboard.score b ≤ Leaderboard.score a.
Proof.
  intros Hname newEntry updated. unfold updated.
  rewrite handleSubmitHighScore_named by done. fold newEntry.
  set (S := Leaderboard.sortDesc (lb ++ [newEntry])).
  pose proof (sortDesc_sorted (lb ++ [newEntry])) as Hs. fold S in Hs.
  rewrite <- (take_drop 5 S) in Hs.
  split; [rewrite length_take; lia|].
  split; [by apply StronglySorted_app_1_l in Hs|].
  exists (drop 5 S). split.
  - rewrite take_drop. apply sortDesc_perm.
  - intros a b Ha Hb.
    apply (StronglySorted_app_1_elem_of _ _ _ a b Hs Ha Hb).
Qed.

Lemma leaderboard_keeps_best_witness :
  let playerName := JS.str " zed " in
  let newEntry := {| Leaderboard.name := Leaderboard.trim playerName;
                     Leaderboard.score := 50 |} in
  let updated :=
    Leaderboard.handleSubmitHighScore Sample.leaderboard playerName 50 in
  Leaderboard.trim playerName ≠ []
  ∧ (length updated ≤ 5)%nat
  ∧ StronglySorted Leaderboard.above updated
  ∧ ∃ rest, updated ++ rest ≡ₚ Sample.leaderboard ++ [newEntry]
            ∧ ∀ a b, a ∈ updated → b ∈ rest →
                     Leaderboard.score b ≤ Leaderboard.score a.
Proof.
  intros playerName newEntry updated.
  assert (H : Leaderboard.trim playerName ≠ [])
    by (vm_compute; discriminate).
  split; [exact H|].
  exact (leaderboard_keeps_best Sample.leaderboard playerName 50 H).
Defined.

(** X19.  A score that qualifies enters the leaderboard, as long as the old
    leaderboard holds no more than five entries. *)
Theorem qualifying_score_enters (lb : list Leaderboard.Entry)
    (playerName : list ascii) (score : Z) :
  (length lb ≤ 5)%nat →
  Leaderboard.trim playerName ≠ [] →
  Leaderboard.qualifies lb score = true →
  {| Leaderboard.name := Leaderboard.trim playerName;
     Leaderboard.score := score |}
  ∈ Leaderboard.handleSubmitHighScore lb playerName score.
Proof.
  intros Hlen Hname Hq.
  rewrite handleSubmitHighScore_named by done.
  set (e := {| Leaderboard.name := _; Leaderboard.score := score |}).
  rewrite sortDesc_snoc.
  destruct (insertDesc_split e (Leaderboard.sortDesc lb))
    as (l1 & l2 & Hl & -> & _ & Hlt).
  pose proof (Permutation_length (sortDesc_perm lb)) as Hlen'.
  assert (H1 : (length l1 < 5)%nat).
  { unfold Leaderboard.qualifies in Hq.
    apply orb_true_iff in Hq as [Hq|Hq].
    - apply Nat.ltb_lt in Hq. rewrite Hl, length_app in Hlen'. lia.
    - apply andb_true_iff in Hq as [_ Hq].
      destruct lb as [|y lb]; [done|]. rewrite fmap_cons in Hq.
      apply Z.ltb_lt in Hq.
      destruct (minOf_spec (Leaderboard.score y) (Leaderboard.score <$> lb))
        as [Hin _].
      rewrite <- fmap_cons in Hin.
      apply list_elem_of_fmap in Hin as (z & Hz & Hzin).
      assert (Hz' : z ∈ Leaderboard.sortDesc (y :: lb))
        by (by rewrite sortDesc_perm).
      specialize (Hlt z Hz' ltac:(simpl; lia)). lia. }
  apply elem_of_take. exists (length l1). split; [|done].
  by apply list_lookup_middle.
Qed.

Lemma qualifying_score_enters_witness :
  let playerName := JS.str " zed " in
  (length Sample.leaderboard ≤ 5)%nat
  ∧ Leaderboard.trim playerName ≠ []
  ∧ Leaderboard.qualifies Sample.leaderboard 50 = true
  ∧ {| Leaderboard.name := Leaderboard.trim playerName;
       Leaderboard.score := 50 |}
    ∈ Leaderboard.handleSubmitHighScore Sample.leaderboard playerName 50.
Proof.
  intros playerName.
  assert (H1 : (length Sample.leaderboard ≤ 5)%nat) by (vm_compute; lia).
  assert (H2 : Leaderboard.trim playerName ≠ [])
    by (vm_compute; discriminate).
  assert (H3 : Leaderboard.qualifies Sample.leaderboard 50 = true)
    by (vm_compute; reflexivity).
  split; [exact H1|]. split; [exact H2|]. split; [exact H3|].
  exact (qualifying_score_enters Sample.leaderboard playerName 50 H1 H2 H3).
Defined.

(** X20.  A score that does not qualify stays out: the leaderboard set is the
    old one, sorted and cut to five, without the new entry. *)
Theorem unqualified_score_left_out (lb : list Leaderboard.Entry)
    (playerName : list ascii) (score : Z) :
  Leaderboard.trim playerName ≠ [] →
  Leaderboard.qualifies lb score = false →
  Leaderboard.handleSubmitHighScore lb playerName score
  = take 5 (Leaderboard.sortDesc lb).
Proof.
  intros Hname Hq.
  rewrite handleSubmitHighScore_named by done.
  set (e := {| Leaderboard.name := _; Leaderboard.score := score |}).
  unfold Leaderboard.qualifies in Hq.
  apply orb_false_iff in Hq as [Hlen Hq]. apply Nat.ltb_ge in Hlen.
  destruct lb as [|y lb]; [simpl in Hlen; lia|].
  change ((JSMath.minOf (Leaderboard.score y)
             (Leaderboard.score <$> lb) <? score) = false) in Hq.
  apply Z.ltb_ge in Hq.
  rewrite sortDesc_snoc, insertDesc_last.
  - apply take_app_le.
    rewrite (Permutation_length (sortDesc_perm (y :: lb))). done.
  - apply Forall_forall. intros z Hz. rewrite sortDesc_perm in Hz.
    destruct (minOf_spec (Leaderboard.score y) (Leaderboard.score <$> lb))
      as [_ Hle].
    specialize (Hle (Leaderboard.score z)).
    rewrite <- fmap_cons in Hle. simpl.
    assert (Leaderboard.score z ∈ Leaderboard.score <$> y :: lb)
      by (apply list_elem_of_fmap; by exists z).
    specialize (Hle H). lia.
Qed.

Lemma unqualified_score_left_out_witness :
  let playerName := JS.str "zed" in
  Leaderboard.trim playerName ≠ []
  ∧ Leaderboard.qualifies Sample.leaderboard 10 = false
  ∧ Leaderboard.handleSubmitHighScore Sample.leaderboard playerName 10
    = take 5 (Leaderboard.sortDesc Sample.leaderboard).
Proof.
  intros playerName.
  assert (H1 : Leaderboard.trim playerName ≠ [])
    by (vm_compute; discriminate).
  assert (H2 : Leaderboard.qualifies Sample.leaderboard 10 = false)
    by (vm_compute; reflexivity).
  split; [exact H1|]. split; [exact H2|].
  exact (unqualified_score_left_out Sample.leaderboard playerName 10 H1 H2).
Defined.

(** * Choosing the word of a round *)

Lemma distance_nonneg (n : Z) (pair : WordPair) :
  0 ≤ WordPick.distance n pair.
Proof. unfold WordPick.distance. lia. Qed.

(** X21.  The words a round may draw are exactly the words of the list whose
    length is closest to the target length, and there is one as soon as
    the list has a word; drawing then gives a word and does not fail. *)
Theorem closest_words_drawn (wordPairs : list WordPair) (n : Z) :
  (∀ pair, pair ∈ WordPick.availablePairs wordPairs n
           ↔ pair ∈ wordPairs
             ∧ ∀ other, other ∈ wordPairs →
                        WordPick.distance n pair
                        ≤ WordPick.distance n other)
  ∧ (wordPairs ≠ [] → WordPick.availablePairs wordPairs n ≠ [])
  ∧ (∀ r, (r < length (WordPick.availablePairs wordPairs n))%nat →
          ∃ pair, pair ∈ wordPairs
                  ∧ WordPick.startNewRound wordPairs n r
                    = Some (word pair)).
Proof.
  assert (Hchar : ∀ pair, pair ∈ WordPick.availablePairs wordPairs n
           ↔ pair ∈ wordPairs
             ∧ ∀ other, other ∈ wordPairs →
                        WordPick.distance n pair
                        ≤ WordPick.distance n other).
  { intros pair. unfold WordPick.availablePairs.
    destruct (filter _ wordPairs) as [|x exact] eqn:Hex.
    - destruct wordPairs as [|p ps]; [simpl; split; [inversion 1|];
        intros [H _]; inversion H|].
      rewrite fmap_cons.
      destruct (minOf_spec (WordPick.distance n p)
                  (WordPick.distance n <$> ps)) as [Hin Hle].
      rewrite <- fmap_cons in Hin, Hle.
      rewrite list_elem_of_filter. split.
      + intros [Hd Hp]. split; [done|]. intros other Ho. rewrite Hd.
        apply Hle, list_elem_of_fmap. by exists other.
      + intros [Hp Hmin]. split; [|done].
        apply list_elem_of_fmap in Hin as (z & Hz & Hzin).
        specialize (Hmin z Hzin).
        specialize (Hle (WordPick.distance n pair)
                      ltac:(apply list_elem_of_fmap; by exists pair)).
        lia.
    - rewrite <- Hex. rewrite list_elem_of_filter.
      assert (Hx : x ∈ wordPairs ∧ Z.of_nat (length (word x)) = n).
      { assert (x ∈ filter (λ pair, Z.of_nat (length (word pair)) = n)
                      wordPairs) as Hx by (rewrite Hex; by constructor).
        apply list_elem_of_filter in Hx. tauto. }
      split.
      + intros [Hl Hp]. split; [done|]. intros other _.
        pose proof (distance_nonneg n other).
        unfold WordPick.distance in *. lia.
      + intros [Hp Hmin]. split; [|done].
        specialize (Hmin x (proj1 Hx)).
        unfold WordPick.distance in Hmin. lia. }
  split; [exact Hchar|]. split.
  - intros Hne Hnil. destruct wordPairs as [|p ps]; [done|].
    destruct (minOf_spec (WordPick.distance n p)
                (WordPick.distance n <$> ps)) as [Hin Hle].
    rewrite <- fmap_cons in Hin, Hle.
    apply list_elem_of_fmap in Hin as (z & Hz & Hzin).
    assert (Hzav : z ∈ WordPick.availablePairs (p :: ps) n).
    { apply Hchar. split; [done|]. intros other Ho. rewrite <- Hz.
      apply Hle, list_elem_of_fmap. by exists other. }
    rewrite Hnil in Hzav. inversion Hzav.
  - intros r Hr. unfold WordPick.startNewRound.
    destruct (lookup_lt_is_Some_2 _ _ Hr) as [pair Hpair].
    exists pair. rewrite Hpair. split; [|done].
    apply list_elem_of_lookup_2 in Hpair.
    apply Hchar in Hpair as [Hin _]. exact Hin.
Qed.

(** * The first index that passes a test *)

Lemma find_seq_first (f : nat → bool) (a n i : nat) :
  find f (seq a n) = Some i →
  f i = true ∧ (a ≤ i < a + n)%nat
  ∧ ∀ j, (a ≤ j < i)%nat → f j = false.
Proof.
  revert a. induction n as [|n IH]; intros a; simpl; [done|].
  destruct (f a) eqn:Ha.
  - intros [= <-]. split; [done|]. split; [lia|]. intros j Hj. lia.
  - intros H. apply IH in H as (Hf & Hi & Hj). split; [done|].
    split; [lia|]. intros j Hjr.
    destruct (decide (j = a)) as [->|]; [done|]. apply Hj. lia.
Qed.

Lemma find_seq_none (f : nat → bool) (a n : nat) :
  find f (seq a n) = None → ∀ j, (a ≤ j < a + n)%nat → f j = false.
Proof.
  revert a. induction n as [|n IH]; intros a; simpl; [intros _ j; lia|].
  destruct (f a) eqn:Ha; [done|]. intros H j Hj.
  destruct (decide (j = a)) as [->|]; [done|]. apply (IH (S a)); [done|lia].
Qed.

(** * The letter-count variant over code units *)

Section Utf16Scorer.

Variable toLowerCase : list N → list N.

Abbreviation charAt := Utf16.charAt.
Abbreviation guessLower := (Utf16.guessLower toLowerCase).
Abbreviation guessedLetter := (Utf16.guessedLetter toLowerCase).
Abbreviation countStep := (Utf16.countStep toLowerCase).
Abbreviation countLetters := (Utf16.countLetters toLowerCase).
Abbreviation markStep := (Utf16.markStep toLowerCase).
Abbreviation markCorrect := (Utf16.markCorrect toLowerCase).
Abbreviation secondStep := (Utf16.secondStep toLowerCase).
Abbreviation secondPass := (Utf16.secondPass toLowerCase).
Abbreviation matchStatusOf := (Utf16.matchStatusOf toLowerCase).
Abbreviation exactAt := (Utf16.exactAt toLowerCase).
Abbreviation unmatchedAt := (Utf16.unmatchedAt toLowerCase).
Abbreviation matchedAt := (Utf16.matchedAt toLowerCase).
Abbreviation wrongAt := (Utf16.wrongAt toLowerCase).
Abbreviation leftAt := (Utf16.leftAt toLowerCase).
Abbreviation takesLetter := (Utf16.takesLetter toLowerCase).
Abbreviation secondInv := (Utf16.secondInv toLowerCase).

Lemma getOr0_empty_u16 (c : list N) : Utf16.getOr0 ∅ c = 0.
Proof. unfold Utf16.getOr0. by rewrite lookup_empty. Qed.

Lemma getOr0_insert_u16 (m : gmap (list N) Z) (a c : list N) (v : Z) :
  Utf16.getOr0 (<[a := v]> m) c
  = if bool_decide (c = a) then v else Utf16.getOr0 m c.
Proof.
  unfold Utf16.getOr0. case_bool_decide as H.
  - subst. by rewrite lookup_insert_eq.
  - by rewrite lookup_insert_ne.
Qed.

Lemma charAt_nonempty (s : list N) (i : nat) : charAt s i ≠ Some [].
Proof. unfold Utf16.charAt. by destruct (s !! i). Qed.

Lemma charAt_length (s : list N) (i : nat) (c : list N) :
  charAt s i = Some c → (i < length s)%nat.
Proof.
  unfold Utf16.charAt. destruct (s !! i) eqn:E; [|done].
  intros _. by eapply lookup_lt_Some.
Qed.

(** ** The counting loop *)

Lemma countLetters_prefix_u16 (guess tw : list N) (c : list N) (k : nat) :
  Utf16.getOr0 (foldl (countStep guess tw) ∅ (seq 0 k)) c
  = Z.of_nat (countUpto (unmatchedAt guess tw c) k).
Proof.
  induction k as [|k IH]; [apply getOr0_empty_u16|].
  rewrite foldl_seq_S. cbn [countUpto].
  unfold Utf16.countStep at 1, Utf16.unmatchedAt at 2.
  destruct (charAt tw k) as [letter|] eqn:Hk.
  - case_bool_decide as Hg.
    + rewrite getOr0_insert_u16. case_bool_decide as Hc.
      * subst c. rewrite IH.
        rewrite !bool_decide_true by done. simpl. lia.
      * rewrite IH. rewrite (bool_decide_false (Some letter = Some c))
          by congruence.
        simpl. lia.
    + rewrite IH.
      destruct (decide (letter = c)) as [->|Hne].
      * rewrite (bool_decide_false (_ ≠ _)) by tauto.
        rewrite andb_false_r. lia.
      * rewrite (bool_decide_false (Some letter = Some c)) by congruence.
        simpl. lia.
  - rewrite IH. rewrite (bool_decide_false (None = Some c)) by done.
    simpl. lia.
Qed.

Lemma countLetters_spec_u16 (guess tw : list N) (c : list N) :
  Utf16.getOr0 (countLetters guess tw) c
  = Z.of_nat (countUpto (unmatchedAt guess tw c) (length tw)).
Proof. apply countLetters_prefix_u16. Qed.

Lemma countLetters_nonneg_u16 (guess tw : list N) (c : list N) :
  0 ≤ Utf16.getOr0 (countLetters guess tw) c.
Proof. rewrite countLetters_spec_u16. lia. Qed.

(** No count is kept under the empty string. *)
Lemma countLetters_empty_key (guess tw : list N) :
  Utf16.getOr0 (countLetters guess tw) [] = 0.
Proof.
  rewrite countLetters_spec_u16, countUpto_none; [done|].
  intros i _. unfold Utf16.unmatchedAt.
  rewrite (bool_decide_false (charAt tw i = Some []))
    by apply charAt_nonempty.
  done.
Qed.

(** ** The loop that marks the exact matches *)

Lemma markCorrect_prefix_u16 (guess tw : list N) (n k i : nat) :
  (k ≤ n)%nat →
  foldl (markStep guess tw) (replicate n StNone) (seq 0 k) !! i
  = if bool_decide (i < n)%nat
    then Some (if bool_decide (i < k)%nat && exactAt guess tw i
               then Correct else StNone)
    else None.
Proof.
  revert i. induction k as [|k IH]; intros i Hk.
  - simpl. case_bool_decide.
    + by apply lookup_replicate_2.
    + apply lookup_replicate_None. lia.
  - rewrite foldl_seq_S.
    assert (IH' : ∀ j, foldl (markStep guess tw) (replicate n StNone)
                         (seq 0 k) !! j
                       = if bool_decide (j < n)%nat
                         then Some (if bool_decide (j < k)%nat
                                       && exactAt guess tw j
                                    then Correct else StNone)
                         else None)
      by (intros j; apply IH; lia).
    clear IH. rename IH' into IH.
    set (ms := foldl _ _ _) in *.
    assert (Hlen : length ms = n).
    { apply lookup_dom_length; intros j Hj; rewrite IH.
      - by rewrite bool_decide_true.
      - by rewrite bool_decide_false by lia. }
    unfold Utf16.markStep. fold (exactAt guess tw k).
    destruct (decide (i = k)) as [->|Hik].
    + rewrite (bool_decide_true (k < n)%nat), (bool_decide_true (k < S k)%nat)
        by lia.
      destruct (exactAt guess tw k) eqn:He.
      * rewrite list_lookup_insert_eq by lia. reflexivity.
      * rewrite IH, bool_decide_true, bool_decide_false by lia. reflexivity.
    + assert (E : bool_decide (i < S k)%nat = bool_decide (i < k)%nat).
      { apply bool_decide_ext. lia. }
      rewrite E.
      destruct (exactAt guess tw k).
      * rewrite list_lookup_insert_ne by done. apply IH.
      * apply IH.
Qed.

Lemma markCorrect_lookup_u16 (guess tw : list N) (n i : nat) :
  (i < n)%nat →
  markCorrect guess tw n !! i
  = Some (if exactAt guess tw i then Correct else StNone).
Proof.
  intros Hi. unfold Utf16.markCorrect.
  rewrite markCorrect_prefix_u16, !bool_decide_true by lia. reflexivity.
Qed.

Lemma length_markCorrect_u16 (guess tw : list N) (n : nat) :
  length (markCorrect guess tw n) = n.
Proof.
  apply lookup_dom_length; intros i Hi; unfold Utf16.markCorrect;
    rewrite markCorrect_prefix_u16 by done.
  - by rewrite bool_decide_true.
  - by rewrite bool_decide_false by lia.
Qed.

Lemma markCorrect_Correct_u16 (guess tw : list N) (n i : nat) :
  (i < n)%nat →
  bool_decide (markCorrect guess tw n !! i = Some Correct)
  = exactAt guess tw i.
Proof.
  intros Hi. rewrite markCorrect_lookup_u16 by done.
  destruct (exactAt guess tw i).
  - by rewrite bool_decide_true.
  - by rewrite bool_decide_false.
Qed.

(** ** The second pass *)

Lemma secondStep_getOr0_u16 (guess : list N) (ms : list MatchStatus)
    (lc : gmap (list N) Z) (i : nat) :
  secondStep guess (ms, lc) i
  = if bool_decide (ms !! i = Some Correct) then (ms, lc)
    else if bool_decide (guessedLetter guess i ≠ [])
            && (0 <? Utf16.getOr0 lc (guessedLetter guess i))
         then (<[i := WrongPosition]> ms,
               <[guessedLetter guess i :=
                   Utf16.getOr0 lc (guessedLetter guess i) - 1]> lc)
         else (<[i := Incorrect]> ms, lc).
Proof.
  unfold Utf16.secondStep, Utf16.getOr0.
  case_bool_decide; [reflexivity|].
  destruct (guessedLetter guess i) as [|u g]; [reflexivity|].
  rewrite bool_decide_true by done.
  destruct (lc !! (u :: g)) as [v|]; simpl; [|reflexivity].
  by destruct (0 <? v).
Qed.

Lemma wrongAt_insert_ne_u16 (ms : list MatchStatus) (guess : list N)
    (c : list N) (k i : nat) (x : MatchStatus) :
  i ≠ k → wrongAt (<[k := x]> ms) guess c i = wrongAt ms guess c i.
Proof.
  intros Hne. unfold Utf16.wrongAt. by rewrite list_lookup_insert_ne.
Qed.

Lemma leftAt_insert_u16 (ms : list MatchStatus) (guess : list N)
    (lc0 : gmap (list N) Z) (g : list N) (k i : nat) (x : MatchStatus) :
  (i ≤ k)%nat →
  leftAt (<[k := x]> ms) guess lc0 g i = leftAt ms guess lc0 g i.
Proof.
  intros Hle. unfold Utf16.leftAt. f_equal. f_equal.
  apply countUpto_ext. intros j Hj. apply wrongAt_insert_ne_u16. lia.
Qed.

Lemma takesLetter_insert_u16 (ms : list MatchStatus) (guess : list N)
    (lc0 : gmap (list N) Z) (k i : nat) (x : MatchStatus) :
  (i ≤ k)%nat →
  takesLetter (<[k := x]> ms) guess lc0 i = takesLetter ms guess lc0 i.
Proof.
  intros Hle. unfold Utf16.takesLetter. by rewrite leftAt_insert_u16.
Qed.

Lemma leftAt_S_u16 (ms : list MatchStatus) (guess : list N)
    (lc0 : gmap (list N) Z) (g : list N) (k : nat) :
  leftAt ms guess lc0 g (S k)
  = leftAt ms guess lc0 g k - (if wrongAt ms guess g k then 1 else 0).
Proof.
  unfold Utf16.leftAt. simpl. destruct (wrongAt ms guess g k); lia.
Qed.

Lemma secondInv_init_u16 (guess : list N) (n : nat)
    (ms1 : list MatchStatus) (lc0 : gmap (list N) Z) :
  length ms1 = n → (∀ c, 0 ≤ Utf16.getOr0 lc0 c) →
  secondInv guess n ms1 lc0 0 (ms1, lc0).
Proof.
  intros Hlen Hnonneg.
  unfold Utf16.secondInv; simpl. repeat split; try done.
  - intros i Hi. lia.
  - intros c. unfold Utf16.leftAt. simpl. lia.
Qed.

Lemma secondInv_step_u16 (guess : list N) (n : nat)
    (ms1 : list MatchStatus) (lc0 : gmap (list N) Z) (k : nat)
    (st : list MatchStatus * gmap (list N) Z) :
  (k < n)%nat →
  secondInv guess n ms1 lc0 k st →
  secondInv guess n ms1 lc0 (S k) (secondStep guess st k).
Proof.
  intros Hk. destruct st as [ms lc].
  rewrite secondStep_getOr0_u16.
  intros (Hl & Hrest & Hdone & Hleft & Hpos).
  simpl in Hl, Hrest, Hdone, Hleft, Hpos.
  pose proof (Hrest k ltac:(lia)) as Hmsk.
  case_bool_decide as Hc.
  { unfold Utf16.secondInv; simpl. repeat split; try done.
    - intros i Hi. apply Hrest. lia.
    - intros i Hi Hin. destruct (decide (i = k)) as [->|Hne].
      + rewrite <- Hmsk, bool_decide_true by done. done.
      + apply Hdone; lia.
    - intros c. rewrite leftAt_S_u16, Hleft.
      unfold Utf16.wrongAt. rewrite Hc.
      rewrite (bool_decide_false (Some Correct = Some WrongPosition))
        by done.
      simpl. lia. }
  set (g := guessedLetter guess k).
  assert (Htake : takesLetter ms guess lc0 k
                  = bool_decide (g ≠ []) && (0 <? Utf16.getOr0 lc g)).
  { unfold Utf16.takesLetter. fold g. by rewrite Hleft. }
  rewrite <- Htake.
  assert (Hfresh : ∀ i, (i < S k)%nat → (i < n)%nat →
    let x := if takesLetter ms guess lc0 k then WrongPosition
             else Incorrect in
    <[k := x]> ms !! i =
      Some (if bool_decide (ms1 !! i = Some Correct) then Correct
            else if takesLetter (<[k := x]> ms) guess lc0 i
                 then WrongPosition else Incorrect)).
  { intros i Hi Hin x. rewrite takesLetter_insert_u16 by lia.
    destruct (decide (i = k)) as [->|Hne].
    - rewrite list_lookup_insert_eq by lia.
      rewrite <- Hmsk, bool_decide_false by done. done.
    - rewrite list_lookup_insert_ne by done. apply Hdone; lia. }
  assert (Hkeep : ∀ x i, (S k ≤ i)%nat → <[k := x]> ms !! i = ms1 !! i).
  { intros x i Hi. rewrite list_lookup_insert_ne by lia.
    apply Hrest. lia. }
  assert (Hleft' : ∀ x c,
    leftAt (<[k := x]> ms) guess lc0 c (S k)
    = Utf16.getOr0 lc c
      - (if bool_decide (x = WrongPosition) && bool_decide (g = c)
         then 1 else 0)).
  { intros x c. rewrite leftAt_S_u16, leftAt_insert_u16, Hleft by lia.
    unfold Utf16.wrongAt. rewrite list_lookup_insert_eq by lia.
    rewrite (bool_decide_ext (Some x = Some WrongPosition)
               (x = WrongPosition)) by (split; congruence).
    reflexivity. }
  destruct (takesLetter ms guess lc0 k) eqn:Ht.
  - symmetry in Htake. apply andb_true_iff in Htake as [_ Hpos'].
    apply Z.ltb_lt in Hpos'.
    unfold Utf16.secondInv; simpl.
    split; [by rewrite length_insert|].
    split; [by apply Hkeep|].
    split; [intros i Hi Hin; by apply (Hfresh i Hi Hin)|].
    split.
    + intros c. rewrite Hleft', getOr0_insert_u16.
      rewrite (bool_decide_true (WrongPosition = WrongPosition)) by done.
      simpl.
      destruct (decide (c = g)) as [->|Hne].
      * by rewrite !bool_decide_true.
      * rewrite !bool_decide_false by congruence. lia.
    + intros c. rewrite getOr0_insert_u16. case_bool_decide; [lia|done].
  - unfold Utf16.secondInv; simpl.
    split; [by rewrite length_insert|].
    split; [by apply Hkeep|].
    split; [intros i Hi Hin; by apply (Hfresh i Hi Hin)|].
    split; [|done].
    intros c. rewrite Hleft'.
    rewrite (bool_decide_false (Incorrect = WrongPosition)) by done.
    simpl. lia.
Qed.

Lemma secondInv_prefix_u16 (guess : list N) (n : nat)
    (ms1 : list MatchStatus) (lc0 : gmap (list N) Z) (k : nat) :
  length ms1 = n → (∀ c, 0 ≤ Utf16.getOr0 lc0 c) →
  (k ≤ n)%nat →
  secondInv guess n ms1 lc0 k
    (foldl (secondStep guess) (ms1, lc0) (seq 0 k)).
Proof.
  intros Hlen Hnonneg. induction k as [|k IH]; intros Hk.
  - by apply secondInv_init_u16.
  - rewrite foldl_seq_S. apply secondInv_step_u16; [lia|]. apply IH. lia.
Qed.

(** ** The finished row *)

Lemma matchStatusOf_inv_u16 (w guess : list N) :
  let n := Nat.max (length w) (length guess) in
  let tw := toLowerCase w in
  let lc0 := countLetters guess tw in
  let ms := matchStatusOf w guess in
  length ms = n
  ∧ (∀ i, (i < n)%nat →
       ms !! i =
         Some (if exactAt guess tw i then Correct
               else if takesLetter ms guess lc0 i then WrongPosition
               else Incorrect))
  ∧ (∀ c, 0 ≤ leftAt ms guess lc0 c n).
Proof.
  intros n tw lc0 ms.
  pose proof (secondInv_prefix_u16 guess n (markCorrect guess tw n) lc0 n
                (length_markCorrect_u16 guess tw n)
                (countLetters_nonneg_u16 guess tw) (le_n n))
    as (Hl & _ & Hdone & Hleft & Hpos).
  change (fst (foldl (secondStep guess) (markCorrect guess tw n, lc0)
                 (seq 0 n))) with ms in *.
  repeat split.
  - exact Hl.
  - intros i Hi. rewrite (Hdone i Hi Hi).
    by rewrite markCorrect_Correct_u16.
  - intros c. rewrite <- Hleft. apply Hpos.
Qed.

Lemma length_matchStatusOf_u16 (w guess : list N) :
  length (matchStatusOf w guess) = Nat.max (length w) (length guess).
Proof. apply matchStatusOf_inv_u16. Qed.

Lemma matchStatusOf_lookup_u16 (w guess : list N) (i : nat) :
  (i < Nat.max (length w) (length guess))%nat →
  matchStatusOf w guess !! i =
    Some (if exactAt guess (toLowerCase w) i then Correct
          else if takesLetter (matchStatusOf w guess) guess
                    (countLetters guess (toLowerCase w)) i
               then WrongPosition
               else Incorrect).
Proof. apply matchStatusOf_inv_u16. Qed.

Lemma matchStatusOf_marked_u16 (w guess : list N) :
  Forall (λ s, s ≠ StNone) (matchStatusOf w guess).
Proof.
  apply Forall_lookup. intros i s Hs.
  pose proof (lookup_lt_Some _ _ _ Hs) as Hi.
  rewrite length_matchStatusOf_u16 in Hi.
  rewrite matchStatusOf_lookup_u16 in Hs by done.
  injection Hs as <-.
  destruct (exactAt _ _ _); [done|]. by destruct (takesLetter _ _ _ _).
Qed.

Lemma classify_nonempty_u16 (target guess : list N) :
  target ≠ [] →
  Utf16.classify toLowerCase target guess
  = Some (matchStatusOf target guess).
Proof.
  intros H. unfold Utf16.classify, Utf16.renderGuessRow. simpl.
  by destruct target.
Qed.

Lemma classify_Some_u16 (target guess : list N) (ms : list MatchStatus) :
  Utf16.classify toLowerCase target guess = Some ms →
  target ≠ [] ∧ ms = matchStatusOf target guess.
Proof.
  unfold Utf16.classify, Utf16.renderGuessRow. simpl.
  destruct target; [discriminate|]. intros [= <-]. done.
Qed.

Lemma exactAt_length_u16 (guess tw : list N) (i : nat) :
  exactAt guess tw i = true →
  (i < length tw)%nat ∧ guessLower guess i = charAt tw i.
Proof.
  unfold Utf16.exactAt. intros H. apply bool_decide_eq_true in H.
  split; [by eapply charAt_length|].
  unfold Utf16.guessedLetter in H.
  destruct (guessLower guess i) as [g|]; simpl in H; [done|].
  symmetry in H. by apply charAt_nonempty in H.
Qed.

(** ** Lower-casing that works unit by unit *)

Abbreviation lowerOf := (λ u : N, toLowerCase [u]).

Lemma unitwise_charAt (s : list N) (i : nat) :
  Utf16.unitwise toLowerCase s →
  charAt (toLowerCase s) i = lowerOf <$> s !! i.
Proof.
  intros H. unfold Utf16.charAt. rewrite <- !list_lookup_fmap.
  by rewrite H.
Qed.

Lemma unitwise_length (s : list N) :
  Utf16.unitwise toLowerCase s → length (toLowerCase s) = length s.
Proof.
  intros H. apply (f_equal length) in H. by rewrite !length_fmap in H.
Qed.

Lemma unitwise_guessLower (s : list N) (i : nat) :
  Utf16.unitwise toLowerCase s →
  guessLower s i = charAt (toLowerCase s) i.
Proof. intros H. by rewrite unitwise_charAt. Qed.

Lemma exactAt_unitwise (target guess : list N) (i : nat) :
  Utf16.unitwise toLowerCase target →
  exactAt guess (toLowerCase target) i
  = match target !! i, guess !! i with
    | Some t, Some g => bool_decide (toLowerCase [g] = toLowerCase [t])
    | _, _ => false
    end.
Proof.
  intros H. unfold Utf16.exactAt.
  pose proof (charAt_nonempty (toLowerCase target) i) as Hne.
  rewrite unitwise_charAt in * by done.
  unfold Utf16.guessedLetter, Utf16.guessLower.
  destruct (target !! i) as [t|], (guess !! i) as [g|]; simpl in *.
  - apply bool_decide_ext. split; congruence.
  - apply bool_decide_false. congruence.
  - done.
  - done.
Qed.

Lemma matchedAt_unitwise (target guess : list N) (c : list N) (i : nat) :
  Utf16.unitwise toLowerCase target →
  matchedAt guess (toLowerCase target) c i
  = match target !! i, guess !! i with
    | Some t, Some g =>
        bool_decide (toLowerCase [g] = toLowerCase [t])
        && bool_decide (c = toLowerCase [t])
    | _, _ => false
    end.
Proof.
  intros H. unfold Utf16.matchedAt.
  rewrite unitwise_charAt by done. unfold Utf16.guessLower.
  destruct (target !! i) as [t|], (guess !! i) as [g|]; simpl;
    repeat case_bool_decide; simpl; congruence.
Qed.

Lemma matchedAt_length_u16 (guess tw : list N) (c : list N) (i : nat) :
  (length tw ≤ i)%nat → matchedAt guess tw c i = false.
Proof.
  intros Hi. unfold Utf16.matchedAt, Utf16.charAt.
  rewrite (lookup_ge_None_2 tw i Hi). by rewrite bool_decide_false.
Qed.

Lemma countUpto_filter {A B : Type} `{EqDecision B} (f : A → B) (c : B)
    (s : list A) :
  countUpto (λ i, bool_decide (f <$> s !! i = Some c)) (length s)
  = length (filter (λ u, f u = c) s).
Proof.
  induction s as [|x s IH] using rev_ind; [reflexivity|].
  rewrite length_app, filter_app, length_app. simpl.
  rewrite Nat.add_1_r. simpl.
  rewrite <- IH.
  rewrite (countUpto_ext _ (λ i, bool_decide (f <$> s !! i = Some c))).
  2:{ intros i Hi. by rewrite lookup_app_l. }
  f_equal.
  rewrite list_lookup_middle by reflexivity.
  rewrite filter_cons, filter_nil. simpl.
  destruct (decide (f x = c)) as [Hc|Hne].
  - rewrite bool_decide_true by congruence. reflexivity.
  - rewrite bool_decide_false by congruence. reflexivity.
Qed.

Lemma matched_unmatched_u16 (target guess : list N) (c : list N) :
  Utf16.unitwise toLowerCase target →
  Z.of_nat (countUpto (matchedAt guess (toLowerCase target) c)
              (length (toLowerCase target)))
  + Z.of_nat (countUpto (unmatchedAt guess (toLowerCase target) c)
                (length (toLowerCase target)))
  = Utf16.histogram toLowerCase target c.
Proof.
  intros H. unfold Utf16.histogram.
  rewrite <- (countUpto_filter lowerOf c target).
  rewrite <- Nat2Z.inj_add, <- countUpto_or.
  - f_equal. rewrite unitwise_length by done.
    apply countUpto_ext. intros i _.
    unfold Utf16.matchedAt, Utf16.unmatchedAt.
    rewrite unitwise_charAt by done.
    repeat case_bool_decide; simpl; tauto.
  - intros i _. unfold Utf16.matchedAt, Utf16.unmatchedAt.
    repeat case_bool_decide; simpl; tauto.
Qed.

(** ** The two passes of the specification *)

Lemma pass1_init_u16 (target guess : list N) (n : nat) :
  Utf16.pass1Inv toLowerCase target guess n 0
    (replicate n Spec.absent, Utf16.histogram toLowerCase target).
Proof.
  split; simpl.
  - intros i. case_bool_decide.
    + by apply lookup_replicate_2.
    + apply lookup_replicate_None. lia.
  - intros c. lia.
Qed.

Lemma pass1_step_u16 (target guess : list N) (n k : nat)
    (st : list Spec.Classification * Utf16.Counter) :
  Utf16.unitwise toLowerCase target →
  (k < n)%nat →
  Utf16.pass1Inv toLowerCase target guess n k st →
  Utf16.pass1Inv toLowerCase target guess n (S k)
    (Utf16.pass1Step toLowerCase target guess st k).
Proof.
  intros Hu Hk. destruct st as [marks avail].
  intros [Hm Ha]; simpl in Hm, Ha.
  assert (Hl : length marks = n).
  { apply lookup_dom_length; intros i Hi; rewrite Hm.
    - by rewrite bool_decide_true.
    - rewrite bool_decide_false by lia. done. }
  assert (Hlt : ∀ i, i ≠ k →
            bool_decide (i < S k)%nat = bool_decide (i < k)%nat)
    by (intros i Hi; apply bool_decide_ext; lia).
  pose proof (exactAt_unitwise target guess k Hu) as He.
  pose proof (λ c, matchedAt_unitwise target guess c k Hu) as Hc.
  unfold Utf16.pass1Step.
  destruct (target !! k) as [t|], (guess !! k) as [g|];
    try case_bool_decide; split; simpl;
    try (intros c; rewrite Ha; cbn [countUpto]; rewrite Hc; simpl; lia);
    try (intros i; destruct (decide (i = k)) as [->|Hne];
         [ rewrite Hm, (bool_decide_true (k < S k)%nat), He,
             (bool_decide_false (k < k)%nat) by lia; reflexivity
         | rewrite Hlt by done; apply Hm ]).
  - intros i. destruct (decide (i = k)) as [->|Hne].
    + rewrite list_lookup_insert_eq by lia.
      rewrite (bool_decide_true (k < n)%nat), (bool_decide_true (k < S k)%nat),
        He by lia.
      reflexivity.
    + rewrite list_lookup_insert_ne, Hlt by done. apply Hm.
  - intros c. unfold Utf16.decrement. rewrite Ha. cbn [countUpto].
    rewrite Hc. simpl. case_bool_decide; simpl; lia.
Qed.

Lemma pass1_prefix_u16 (target guess : list N) (n k : nat) :
  Utf16.unitwise toLowerCase target →
  (k ≤ n)%nat →
  Utf16.pass1Inv toLowerCase target guess n k
    (foldl (Utf16.pass1Step toLowerCase target guess)
       (replicate n Spec.absent, Utf16.histogram toLowerCase target)
       (seq 0 k)).
Proof.
  intros Hu. induction k as [|k IH]; intros Hk.
  - apply pass1_init_u16.
  - rewrite foldl_seq_S. apply pass1_step_u16; [done|lia|]. apply IH. lia.
Qed.

Lemma related_step_u16 (guess : list N)
    (st : list MatchStatus * gmap (list N) Z)
    (st' : list Spec.Classification * Utf16.Counter) (i : nat) :
  Utf16.related st st' →
  Utf16.related (secondStep guess st i)
    (Utf16.pass2Step toLowerCase guess st' i).
Proof.
  destruct st as [ms lc], st' as [marks avail].
  intros (Hm & Ha & H0); simpl in Hm, Ha, H0. subst marks.
  rewrite secondStep_getOr0_u16. unfold Utf16.pass2Step.
  assert (E : bool_decide ((Simulation.markOf <$> ms) !! i
                           = Some Spec.correct)
              = bool_decide (ms !! i = Some Correct)).
  { rewrite list_lookup_fmap. apply bool_decide_ext.
    destruct (ms !! i) as [[]|]; simpl; split; congruence. }
  rewrite E. clear E.
  destruct (bool_decide (ms !! i = Some Correct)); [by repeat split|].
  unfold Utf16.guessedLetter, Utf16.guessLower.
  destruct (guess !! i) as [g|]; simpl.
  - rewrite Ha.
    destruct (decide (toLowerCase [g] = [])) as [Hg|Hg].
    + rewrite Hg, H0. change (0 <? 0) with false.
      rewrite andb_false_r.
      repeat split; simpl; [by rewrite list_fmap_insert|done|done].
    + rewrite bool_decide_true by done. simpl.
      destruct (0 <? Utf16.getOr0 lc (toLowerCase [g])).
      * repeat split; simpl; [by rewrite list_fmap_insert| |].
        -- intros c. unfold Utf16.decrement.
           rewrite getOr0_insert_u16, Ha. case_bool_decide; congruence.
        -- rewrite getOr0_insert_u16, bool_decide_false by congruence.
           done.
      * repeat split; simpl; [by rewrite list_fmap_insert|done|done].
  - repeat split; simpl; [by rewrite list_fmap_insert|done|done].
Qed.

Lemma related_foldl_u16 (guess : list N) (l : list nat)
    (st : list MatchStatus * gmap (list N) Z)
    (st' : list Spec.Classification * Utf16.Counter) :
  Utf16.related st st' →
  Utf16.related (foldl (secondStep guess) st l)
                (foldl (Utf16.pass2Step toLowerCase guess) st' l).
Proof.
  revert st st'. induction l as [|i l IH]; intros st st' H; simpl; [done|].
  apply IH. by apply related_step_u16.
Qed.

Lemma related_after_pass1_u16 (target guess : list N) :
  Utf16.unitwise toLowerCase target →
  let n := Nat.max (length target) (length guess) in
  let tw := toLowerCase target in
  Utf16.related
    (markCorrect guess tw n, countLetters guess tw)
    (foldl (Utf16.pass1Step toLowerCase target guess)
       (replicate n Spec.absent, Utf16.histogram toLowerCase target)
       (seq 0 n)).
Proof.
  intros Hu n tw.
  destruct (pass1_prefix_u16 target guess n n Hu (le_n n)) as [Hm Ha].
  split; [|split]; simpl.
  - apply list_eq. intros i. rewrite Hm, list_lookup_fmap.
    unfold Utf16.markCorrect. rewrite markCorrect_prefix_u16 by done.
    case_bool_decide; [|done]. simpl.
    fold tw. by destruct (exactAt guess tw i).
  - intros c. rewrite Ha, countLetters_spec_u16.
    rewrite <- (matched_unmatched_u16 target guess c Hu). fold tw.
    rewrite (countUpto_ge (matchedAt guess tw c) (length tw) n).
    + lia.
    + unfold tw, n. rewrite unitwise_length by done. lia.
    + intros i Hi. by apply matchedAt_length_u16.
  - apply countLetters_empty_key.
Qed.

Lemma matchStatusOf_markOf_u16 (target guess : list N) :
  Utf16.unitwise toLowerCase target →
  Simulation.markOf <$> matchStatusOf target guess
  = Utf16.reference toLowerCase target guess.
Proof.
  intros Hu. unfold Utf16.matchStatusOf, Utf16.reference, Utf16.secondPass.
  apply (related_foldl_u16 guess _ _ _
           (related_after_pass1_u16 target guess Hu)).
Qed.

(** ** The claims on the scorer over code units *)

Lemma unmatchedAt_empty_key (guess tw : list N) (k : nat) :
  countUpto (unmatchedAt guess tw []) k = O.
Proof.
  apply countUpto_none. intros i _. unfold Utf16.unmatchedAt.
  rewrite (bool_decide_false (charAt tw i = Some []))
    by apply charAt_nonempty.
  done.
Qed.

(** C1, as the scorer has it.  A cell past the end of the lower-cased
    target (the end of the target, where lower-casing keeps its length)
    is never marked correct.  It is marked wrong-position when the
    lower-cased target has more places of the guessed letter outside the
    exact matches than there are cells before it already marked
    wrong-position for that letter, and incorrect otherwise. *)
Theorem extra_cells_classified (target guess : list N)
    (ms : list MatchStatus) (i : nat) :
  Utf16.classify toLowerCase target guess = Some ms →
  (length (toLowerCase target) ≤ i < length guess)%nat →
  ∃ u, guess !! i = Some u
       ∧ ms !! i =
           Some (if (countUpto (wrongAt ms guess (toLowerCase [u])) i
                     <? countUpto
                          (unmatchedAt guess (toLowerCase target)
                             (toLowerCase [u]))
                          (length (toLowerCase target)))%nat
                 then WrongPosition else Incorrect).
Proof.
  intros H [Hlo Hhi]. apply classify_Some_u16 in H as [_ ->].
  destruct (lookup_lt_is_Some_2 guess i Hhi) as [u Hu].
  exists u. split; [done|].
  rewrite matchStatusOf_lookup_u16 by lia.
  destruct (exactAt guess (toLowerCase target) i) eqn:He.
  { apply exactAt_length_u16 in He. lia. }
  unfold Utf16.takesLetter, Utf16.guessedLetter, Utf16.guessLower.
  rewrite Hu. simpl.
  unfold Utf16.leftAt. rewrite countLetters_spec_u16.
  set (a := countUpto _ i).
  set (b := countUpto _ (length (toLowerCase target))).
  assert (Hb : toLowerCase [u] = [] → b = O)
    by (intros E; unfold b; rewrite E; apply unmatchedAt_empty_key).
  destruct (Nat.ltb_spec a b);
    destruct (Z.ltb_spec 0 (Z.of_nat b - Z.of_nat a)); try lia.
  - rewrite bool_decide_true; [done|]. intros E. specialize (Hb E). lia.
  - by rewrite andb_false_r.
Qed.

(** C2, as the scorer has it.  On every non-empty target that
    lower-cases unit by unit the row of the scorer is, cell by cell, the
    classification of the two passes of the specification: the histogram
    of the whole target, then the exact matches from left to right, each
    taking its letter, then the other cells from left to right. *)
Theorem classify_refines_spec (target guess : list N) :
  target ≠ [] →
  Utf16.unitwise toLowerCase target →
  ∃ ms, Utf16.classify toLowerCase target guess = Some ms
        ∧ Spec.ofStatus <$> ms
          = Some <$> Utf16.reference toLowerCase target guess.
Proof.
  intros Hne Hu. exists (matchStatusOf target guess).
  split; [by apply classify_nonempty_u16|].
  rewrite ofStatus_markOf by apply matchStatusOf_marked_u16.
  by rewrite matchStatusOf_markOf_u16.
Qed.

(** C6, as the scorer has it.  A non-empty target that lower-cases unit
    by unit, scored against itself, is correct in every cell. *)
Theorem classify_self (target : list N) :
  target ≠ [] →
  Utf16.unitwise toLowerCase target →
  Utf16.classify toLowerCase target target
  = Some (replicate (length target) Correct).
Proof.
  intros Hne Hu. rewrite classify_nonempty_u16 by done. f_equal.
  apply list_eq. intros i.
  destruct (decide (i < length target)%nat) as [Hi|Hi].
  - rewrite matchStatusOf_lookup_u16 by lia.
    rewrite exactAt_unitwise by done.
    destruct (lookup_lt_is_Some_2 target i Hi) as [t ->].
    rewrite bool_decide_true by done. by rewrite lookup_replicate_2.
  - rewrite (lookup_ge_None_2 (replicate _ _))
      by (rewrite length_replicate; lia).
    apply lookup_ge_None_2. rewrite length_matchStatusOf_u16. lia.
Qed.

(** The row depends on the target through its length and its lower-case
    form, and on the guess through the lower-case forms of its units. *)
Lemma matchStatusOf_lower_ext_u16 (w w' guess guess' : list N) :
  length w' = length w →
  toLowerCase w' = toLowerCase w →
  lowerOf <$> guess' = lowerOf <$> guess →
  matchStatusOf w' guess' = matchStatusOf w guess.
Proof.
  intros Hlw Hw Hg.
  assert (Hlg : length guess' = length guess)
    by (apply (f_equal length) in Hg; by rewrite !length_fmap in Hg).
  assert (HG : ∀ i, guessLower guess' i = guessLower guess i).
  { intros i. unfold Utf16.guessLower.
    by rewrite <- !list_lookup_fmap, Hg. }
  unfold Utf16.matchStatusOf. rewrite Hw, Hlw, Hlg.
  set (n := Nat.max _ _). set (tw := toLowerCase w).
  assert (E1 : countLetters guess' tw = countLetters guess tw).
  { unfold Utf16.countLetters. apply foldl_ext_in. intros m i _.
    unfold Utf16.countStep. by rewrite HG. }
  assert (E2 : markCorrect guess' tw n = markCorrect guess tw n).
  { unfold Utf16.markCorrect. apply foldl_ext_in. intros m i _.
    unfold Utf16.markStep, Utf16.guessedLetter. by rewrite HG. }
  rewrite E1, E2. f_equal. unfold Utf16.secondPass.
  apply foldl_ext_in. intros st i _.
  unfold Utf16.secondStep, Utf16.guessedLetter. by rewrite HG.
Qed.

Lemma classify_lower_ext_u16 (target target' guess guess' : list N) :
  length target' = length target →
  toLowerCase target' = toLowerCase target →
  lowerOf <$> guess' = lowerOf <$> guess →
  Utf16.classify toLowerCase target' guess'
  = Utf16.classify toLowerCase target guess.
Proof.
  intros Hl Hw Hg. unfold Utf16.classify, Utf16.renderGuessRow. simpl.
  destruct target as [|a t], target' as [|a' t']; try discriminate Hl;
    [reflexivity|].
  f_equal. by apply matchStatusOf_lower_ext_u16.
Qed.

(** C7, as the scorer has it.  The row is the same when a case
    conversion ([convert]: to lower or to upper case) is applied to the
    target, to the guess or to both, provided the conversion keeps the
    length and the lower-case form of the target and the lower-case form
    of every unit of the guess, as the conversions do on ASCII text. *)
Theorem classify_case_insensitive (convert : list N → list N)
    (target guess : list N) :
  length (convert target) = length target →
  toLowerCase (convert target) = toLowerCase target →
  lowerOf <$> convert guess = lowerOf <$> guess →
  Utf16.classify toLowerCase (convert target) (convert guess)
    = Utf16.classify toLowerCase target guess
  ∧ Utf16.classify toLowerCase (convert target) guess
    = Utf16.classify toLowerCase target guess
  ∧ Utf16.classify toLowerCase target (convert guess)
    = Utf16.classify toLowerCase target guess.
Proof.
  intros Hl Hw Hg.
  repeat split; by apply classify_lower_ext_u16.
Qed.

End Utf16Scorer.

Lemma extra_cells_classified_witness :
  let target := Utf16.str "ab" in
  let guess := Utf16.str "xxa" in
  let ms := [Incorrect; Incorrect; WrongPosition] in
  Utf16.classify Unicode.toLowerCase target guess = Some ms
  ∧ (length (Unicode.toLowerCase target) ≤ 2 < length guess)%nat
  ∧ ∃ u, guess !! 2%nat = Some u
         ∧ ms !! 2%nat =
             Some (if (countUpto
                         (Utf16.wrongAt Unicode.toLowerCase ms guess
                            (Unicode.toLowerCase [u])) 2
                       <? countUpto
                            (Utf16.unmatchedAt Unicode.toLowerCase guess
                               (Unicode.toLowerCase target)
                               (Unicode.toLowerCase [u]))
                            (length (Unicode.toLowerCase target)))%nat
                   then WrongPosition else Incorrect).
Proof.
  intros target guess ms.
  assert (H1 : Utf16.classify Unicode.toLowerCase target guess = Some ms)
    by (vm_compute; reflexivity).
  assert (H2 : (length (Unicode.toLowerCase target) ≤ 2 < length guess)%nat)
    by (vm_compute; lia).
  split; [exact H1|]. split; [exact H2|].
  exact (extra_cells_classified Unicode.toLowerCase target guess ms 2 H1 H2).
Defined.

Lemma classify_refines_spec_witness :
  let target := Utf16.str "ERROR" in
  let guess := Utf16.str "ROARR" in
  target ≠ []
  ∧ Utf16.unitwise Unicode.toLowerCase target
  ∧ ∃ ms, Utf16.classify Unicode.toLowerCase target guess = Some ms
          ∧ Spec.ofStatus <$> ms
            = Some <$> Utf16.reference Unicode.toLowerCase target guess.
Proof.
  intros target guess.
  assert (H1 : target ≠ []) by (vm_compute; discriminate).
  assert (H2 : Utf16.unitwise Unicode.toLowerCase target)
    by (vm_compute; reflexivity).
  split; [exact H1|]. split; [exact H2|].
  exact (classify_refines_spec Unicode.toLowerCase target guess H1 H2).
Defined.

(** C2 as stated fails.  On the empty target the scorer returns [null]
    where the two passes give one absent cell; and on the target and
    guess "ΑΣ" (913, 931), whose lower-case form ends in the final sigma
    (962) while the unit 931 alone lower-cases to 963, the scorer marks
    the second cell incorrect where the two passes mark it correct. *)
Lemma classify_differs_from_reference :
  (Utf16.classify Unicode.toLowerCase [] (Utf16.str "a") = None
   ∧ Utf16.reference Unicode.toLowerCase [] (Utf16.str "a")
     = [Spec.absent])
  ∧ (Utf16.classify Unicode.toLowerCase [913; 931]%N [913; 931]%N
     = Some [Correct; Incorrect]
     ∧ Utf16.reference Unicode.toLowerCase [913; 931]%N [913; 931]%N
       = [Spec.correct; Spec.correct]).
Proof. repeat split; vm_compute; reflexivity. Qed.

Lemma classify_self_witness :
  let target := Utf16.str "Noon" in
  target ≠ []
  ∧ Utf16.unitwise Unicode.toLowerCase target
  ∧ Utf16.classify Unicode.toLowerCase target target
    = Some (replicate (length target) Correct).
Proof.
  intros target.
  assert (H1 : target ≠ []) by (vm_compute; discriminate).
  assert (H2 : Utf16.unitwise Unicode.toLowerCase target)
    by (vm_compute; reflexivity).
  split; [exact H1|]. split; [exact H2|].
  exact (classify_self Unicode.toLowerCase target H1 H2).
Defined.

(** C6 as stated fails: the word "ΑΣ" (913, 931) lower-cases to 945, 962
    as a whole, the guess unit 931 to 963 on its own, and the second
    cell of the word scored against itself is marked incorrect. *)
Lemma classify_self_final_sigma :
  Unicode.toLowerCase [913; 931]%N = [945; 962]%N
  ∧ Unicode.toLowerCase [931]%N = [963]%N
  ∧ Utf16.classify Unicode.toLowerCase [913; 931]%N [913; 931]%N
    = Some [Correct; Incorrect].
Proof. repeat split; vm_compute; reflexivity. Qed.

Lemma classify_case_insensitive_witness :
  let target := Utf16.str "Apple" in
  let guess := Utf16.str "PPLEA" in
  length (Unicode.toLowerCase target) = length target
  ∧ Unicode.toLowerCase (Unicode.toLowerCase target)
    = Unicode.toLowerCase target
  ∧ (λ u, Unicode.toLowerCase [u]) <$> Unicode.toLowerCase guess
    = (λ u, Unicode.toLowerCase [u]) <$> guess
  ∧ Utf16.classify Unicode.toLowerCase (Unicode.toLowerCase target)
      (Unicode.toLowerCase guess)
    = Utf16.classify Unicode.toLowerCase target guess
  ∧ Utf16.classify Unicode.toLowerCase (Unicode.toLowerCase target) guess
    = Utf16.classify Unicode.toLowerCase target guess
  ∧ Utf16.classify Unicode.toLowerCase target (Unicode.toLowerCase guess)
    = Utf16.classify Unicode.toLowerCase target guess.
Proof.
  intros target guess.
  assert (H1 : length (Unicode.toLowerCase target) = length target)
    by reflexivity.
  assert (H2 : Unicode.toLowerCase (Unicode.toLowerCase target)
               = Unicode.toLowerCase target) by reflexivity.
  assert (H3 : (λ u, Unicode.toLowerCase [u]) <$> Unicode.toLowerCase guess
               = (λ u, Unicode.toLowerCase [u]) <$> guess) by reflexivity.
  split; [exact H1|]. split; [exact H2|]. split; [exact H3|].
  exact (classify_case_insensitive Unicode.toLowerCase Unicode.toLowerCase
           target guess H1 H2 H3).
Defined.

(** C7 as stated fails: the row of "ΑΣ" (913, 931) scored against itself
    is correct, incorrect; lower-casing both gives 945, 962, whose row is
    correct, correct. *)
Lemma lower_casing_changes_row :
  let target := [913; 931]%N in
  Utf16.classify Unicode.toLowerCase target target
  = Some [Correct; Incorrect]
  ∧ Utf16.classify Unicode.toLowerCase (Unicode.toLowerCase target)
      (Unicode.toLowerCase target)
    = Some [Correct; Correct]
  ∧ Utf16.classify Unicode.toLowerCase (Unicode.toLowerCase target)
      (Unicode.toLowerCase target)
    ≠ Utf16.classify Unicode.toLowerCase target target.
Proof.
  repeat split; try (vm_compute; reflexivity).
  vm_compute. discriminate.
Qed.

(** * Rows and accepted guesses, over code units *)

Section Utf16Rows.

Variable toLowerCase : list N → list N.

Abbreviation lowerOf := (λ u : N, toLowerCase [u]).

Lemma unitwise_eq (s t : list N) :
  Utf16.unitwise toLowerCase s → Utf16.unitwise toLowerCase t →
  toLowerCase s = toLowerCase t ↔ lowerOf <$> s = lowerOf <$> t.
Proof.
  unfold Utf16.unitwise. intros Hs Ht. rewrite <- Hs, <- Ht. split.
  - by intros ->.
  - apply (inj (fmap (λ u : N, [u]))).
Qed.

Lemma exactAt_sameLetter_u16 (target guess : list N) (i : nat) :
  Utf16.unitwise toLowerCase target →
  Utf16.exactAt toLowerCase guess (toLowerCase target) i
  = Utf16.sameLetter toLowerCase target guess i.
Proof. apply exactAt_unitwise. Qed.

Lemma sameLetter_lt (target guess : list N) (i : nat) :
  Utf16.sameLetter toLowerCase target guess i = true →
  (i < length target)%nat ∧ (i < length guess)%nat.
Proof.
  unfold Utf16.sameLetter.
  destruct (target !! i) eqn:Ht; [|done].
  destruct (guess !! i) eqn:Hg; [|done].
  intros _. split; by eapply lookup_lt_Some.
Qed.

Lemma sameLetter_all_u16 (target guess : list N) :
  (∀ i, (i < Nat.max (length target) (length guess))%nat →
        Utf16.sameLetter toLowerCase target guess i = true)
  ↔ lowerOf <$> guess = lowerOf <$> target.
Proof.
  split.
  - intros H.
    assert (Hl : length target = length guess).
    { destruct (Nat.lt_trichotomy (length target) (length guess))
        as [Hlt|[Heq|Hgt]]; [exfalso|done|exfalso].
      - specialize (H (length target) ltac:(lia)).
        apply sameLetter_lt in H. lia.
      - specialize (H (length guess) ltac:(lia)).
        apply sameLetter_lt in H. lia. }
    apply list_eq. intros i. rewrite !list_lookup_fmap.
    destruct (decide (i < length target)%nat) as [Hi|Hi].
    + specialize (H i ltac:(lia)). unfold Utf16.sameLetter in H.
      destruct (target !! i), (guess !! i); try done.
      simpl. f_equal. by apply bool_decide_eq_true in H.
    + rewrite (lookup_ge_None_2 target), (lookup_ge_None_2 guess) by lia.
      done.
  - intros H i Hi.
    assert (Hl : length target = length guess)
      by (apply (f_equal length) in H; by rewrite !length_fmap in H).
    pose proof (f_equal (λ l, l !! i) H) as Hi'. simpl in Hi'.
    rewrite !list_lookup_fmap in Hi'.
    unfold Utf16.sameLetter.
    destruct (lookup_lt_is_Some_2 target i ltac:(lia)) as [t Ht].
    destruct (lookup_lt_is_Some_2 guess i ltac:(lia)) as [g Hg].
    rewrite Ht, Hg in *. simpl in Hi'. apply bool_decide_eq_true.
    congruence.
Qed.

Lemma matchStatusOf_Correct_u16 (target guess : list N) (i : nat) :
  Utf16.unitwise toLowerCase target →
  Utf16.matchStatusOf toLowerCase target guess !! i = Some Correct
  ↔ Utf16.sameLetter toLowerCase target guess i = true.
Proof.
  intros Hu. rewrite <- exactAt_sameLetter_u16 by done. split.
  - intros H. pose proof (lookup_lt_Some _ _ _ H) as Hi.
    rewrite length_matchStatusOf_u16 in Hi.
    rewrite matchStatusOf_lookup_u16 in H by done.
    destruct (Utf16.exactAt _ _ _ _); [done|].
    by destruct (Utf16.takesLetter _ _ _ _ _).
  - intros H. pose proof H as H'.
    rewrite exactAt_sameLetter_u16 in H' by done.
    apply sameLetter_lt in H'.
    rewrite matchStatusOf_lookup_u16 by lia. by rewrite H.
Qed.

(** X12.  When the word and the guess lower-case unit by unit, as ASCII
    text does, a guess is accepted as the word exactly when the
    letter-count variant marks every cell of its row correct. *)
Theorem accepted_iff_all_correct (target guess : list N) :
  target ≠ [] →
  Utf16.unitwise toLowerCase target →
  Utf16.unitwise toLowerCase guess →
  Utf16.isCorrect toLowerCase guess target = true
  ↔ Utf16.classify toLowerCase target guess
    = Some (replicate (Nat.max (length target) (length guess)) Correct).
Proof.
  intros Hne Ht Hg. rewrite classify_nonempty_u16 by done.
  unfold Utf16.isCorrect.
  rewrite bool_decide_eq_true, unitwise_eq, <- sameLetter_all_u16 by done.
  set (n := Nat.max (length target) (length guess)).
  split.
  - intros H. f_equal. apply list_eq. intros i.
    destruct (decide (i < n)%nat) as [Hi|Hi].
    + rewrite lookup_replicate_2 by done.
      apply matchStatusOf_Correct_u16; [done|by apply H].
    + rewrite (lookup_ge_None_2 (replicate _ _))
        by (rewrite length_replicate; lia).
      apply lookup_ge_None_2. rewrite length_matchStatusOf_u16. fold n. lia.
  - intros [= H] i Hi.
    apply (matchStatusOf_Correct_u16 target guess i); [done|].
    rewrite H. by apply lookup_replicate_2.
Qed.

(** ** The variants that colour each cell on its own *)

Lemma pair_row (p : Utf16.WordPair) (guess : list N) :
  Utf16Pair.renderGuessRow toLowerCase (Some p) guess
  = Utf16Word.renderGuessRow toLowerCase (Utf16.word p) guess.
Proof. reflexivity. Qed.

Lemma word_row_lookup (currentWord guess : list N) (i : nat) :
  (i < Nat.max (length currentWord) (length guess))%nat →
  Utf16Word.renderGuessRow toLowerCase currentWord guess !! i
  = Some (Utf16Word.cellClass toLowerCase currentWord guess i).
Proof.
  intros Hi. unfold Utf16Word.renderGuessRow.
  rewrite list_lookup_fmap, lookup_seq_lt by done. reflexivity.
Qed.

Lemma word_cell_green (currentWord guess : list N) (i : nat) :
  Utf16Word.cellClass toLowerCase currentWord guess i = Render.BgGreen500
  ↔ Utf16.sameLetter toLowerCase currentWord guess i = true.
Proof.
  unfold Utf16Word.cellClass, Utf16.sameLetter.
  destruct (Nat.ltb_spec i (length currentWord)) as [Hi|Hi].
  - destruct (currentWord !! i), (guess !! i); try done.
    case_bool_decide; done.
  - rewrite (lookup_ge_None_2 currentWord) by done. done.
Qed.

Lemma word_row_green (currentWord guess : list N) (i : nat) :
  Utf16Word.renderGuessRow toLowerCase currentWord guess !! i
  = Some Render.BgGreen500
  ↔ Utf16.sameLetter toLowerCase currentWord guess i = true.
Proof.
  split.
  - intros H. pose proof (lookup_lt_Some _ _ _ H) as Hi.
    unfold Utf16Word.renderGuessRow in Hi.
    rewrite length_fmap, length_seq in Hi.
    rewrite word_row_lookup in H by done.
    apply word_cell_green. congruence.
  - intros H. pose proof (sameLetter_lt _ _ _ H) as [Hi _].
    rewrite word_row_lookup by lia. f_equal. by apply word_cell_green.
Qed.

Lemma word_row_all_green (currentWord guess : list N) :
  Forall (λ cls, cls = Render.BgGreen500)
    (Utf16Word.renderGuessRow toLowerCase currentWord guess)
  ↔ lowerOf <$> guess = lowerOf <$> currentWord.
Proof.
  rewrite <- sameLetter_all_u16, Forall_lookup. split.
  - intros H i Hi. apply word_row_green.
    rewrite word_row_lookup by done. f_equal.
    apply (H i). by apply word_row_lookup.
  - intros H i cls Hc.
    pose proof (lookup_lt_Some _ _ _ Hc) as Hi.
    unfold Utf16Word.renderGuessRow in Hi.
    rewrite length_fmap, length_seq in Hi.
    specialize (H i Hi). apply word_row_green in H. congruence.
Qed.

(** X13.  In the variants that colour each cell on its own, when the
    word and the guess lower-case unit by unit, as ASCII text does, a
    guess is accepted as the word exactly when every cell of its row is
    green. *)
Theorem accepted_iff_all_green (currentWord guess : list N)
    (currentPair : Utf16.WordPair) :
  Utf16.unitwise toLowerCase guess →
  Utf16.unitwise toLowerCase currentWord →
  Utf16.unitwise toLowerCase (Utf16.word currentPair) →
  (Utf16.isCorrect toLowerCase guess currentWord = true
   ↔ Forall (λ cls, cls = Render.BgGreen500)
       (Utf16Word.renderGuessRow toLowerCase currentWord guess))
  ∧ (Utf16.isCorrect toLowerCase guess (Utf16.word currentPair) = true
     ↔ Forall (λ cls, cls = Render.BgGreen500)
         (Utf16Pair.renderGuessRow toLowerCase (Some currentPair) guess)).
Proof.
  intros Hg Hw Hp. unfold Utf16.isCorrect. split.
  - by rewrite word_row_all_green, bool_decide_eq_true, unitwise_eq.
  - by rewrite pair_row, word_row_all_green, bool_decide_eq_true,
      unitwise_eq.
Qed.

(** X14.  On a word that lower-cases unit by unit, as ASCII text does,
    the variants agree on the green cells: a cell is marked correct by
    the letter-count variant exactly when the others colour it green. *)
Theorem correct_iff_green (target guess : list N)
    (ms : list MatchStatus) (i : nat) :
  Utf16.unitwise toLowerCase target →
  Utf16.classify toLowerCase target guess = Some ms →
  ms !! i = Some Correct
  ↔ Utf16Word.renderGuessRow toLowerCase target guess !! i
    = Some Render.BgGreen500.
Proof.
  intros Hu H. apply classify_Some_u16 in H as [_ ->].
  by rewrite word_row_green, matchStatusOf_Correct_u16.
Qed.

(** ** The number of wrong-position cells *)

Lemma wrongAt_min_u16 (target guess : list N) (c : list N) (k : nat) :
  (k ≤ Nat.max (length target) (length guess))%nat →
  countUpto
    (Utf16.wrongAt toLowerCase
       (Utf16.matchStatusOf toLowerCase target guess) guess c) k
  = Nat.min
      (countUpto
         (Utf16.unmatchedAt toLowerCase guess (toLowerCase target) c)
         (length (toLowerCase target)))
      (countUpto
         (Utf16.unmatchedGuessAt toLowerCase guess (toLowerCase target) c)
         k).
Proof.
  set (ms := Utf16.matchStatusOf toLowerCase target guess).
  set (tw := toLowerCase target).
  set (U := countUpto (Utf16.unmatchedAt toLowerCase guess tw c)
              (length tw)).
  induction k as [|k IH]; intros Hk; [simpl; lia|].
  specialize (IH ltac:(lia)).
  pose proof (matchStatusOf_lookup_u16 toLowerCase target guess k
                ltac:(lia)) as Hms.
  fold ms tw in Hms.
  cbn [countUpto]. rewrite IH.
  set (G := countUpto (Utf16.unmatchedGuessAt toLowerCase guess tw c) k).
  unfold Utf16.wrongAt, Utf16.unmatchedGuessAt. rewrite Hms.
  destruct (Utf16.exactAt toLowerCase guess tw k); simpl; [lia|].
  unfold Utf16.takesLetter, Utf16.guessedLetter, Utf16.guessLower.
  destruct (guess !! k) as [u|] eqn:Hu; simpl.
  2:{ lia. }
  destruct (decide (toLowerCase [u] = c)) as [Hc|Hne].
  2:{ rewrite (bool_decide_false (toLowerCase [u] = c)) by done.
      rewrite (bool_decide_false (Some _ = Some c)) by congruence.
      rewrite andb_false_r. lia. }
  rewrite (bool_decide_true (toLowerCase [u] = c)) by done.
  rewrite (bool_decide_true (Some _ = Some c)) by congruence.
  rewrite Hc. unfold Utf16.leftAt.
  rewrite (countLetters_spec_u16 toLowerCase guess tw c).
  fold U. fold ms. rewrite IH. fold G.
  destruct (decide (c = [])) as [->|Hc0].
  { assert (U = O) as -> by apply unmatchedAt_empty_key.
    rewrite (bool_decide_false ([] ≠ [])) by (intros H; by apply H).
    simpl. lia. }
  rewrite (bool_decide_true (c ≠ [])) by done.
  destruct (Z.ltb_spec 0 (Z.of_nat U - Z.of_nat (Nat.min U G))).
  - rewrite bool_decide_true by done. simpl. lia.
  - rewrite bool_decide_false by done. simpl. lia.
Qed.

(** X17.  For every letter the cells marked wrong-position are as many
    as the letter allows: the smaller of the number of its places in the
    lower-cased target outside the exact matches and the number of cells
    of the guess that hold it outside the exact matches. *)
Theorem wrong_position_count (target guess : list N)
    (ms : list MatchStatus) (c : list N) :
  Utf16.classify toLowerCase target guess = Some ms →
  countUpto (Utf16.wrongAt toLowerCase ms guess c) (length ms)
  = Nat.min
      (countUpto
         (Utf16.unmatchedAt toLowerCase guess (toLowerCase target) c)
         (length (toLowerCase target)))
      (countUpto
         (Utf16.unmatchedGuessAt toLowerCase guess (toLowerCase target) c)
         (length ms)).
Proof.
  intros H. apply classify_Some_u16 in H as [_ ->].
  apply wrongAt_min_u16. by rewrite length_matchStatusOf_u16.
Qed.

(** ** Feedback on a misspelt word *)

Lemma mismatchAt_sameLetter_u16 (expected input : list N) (i : nat) :
  (i < length expected)%nat → length input = length expected →
  Utf16Feedback.mismatchAt toLowerCase expected input i
  = negb (Utf16.sameLetter toLowerCase expected input i).
Proof.
  intros Hi Hl. unfold Utf16Feedback.mismatchAt, Utf16.sameLetter.
  destruct (lookup_lt_is_Some_2 expected i Hi) as [e ->].
  destruct (lookup_lt_is_Some_2 input i ltac:(lia)) as [g ->].
  repeat case_bool_decide; simpl; congruence.
Qed.

Lemma letterMessage_not_orderMessage (i : nat) (e g : N) :
  Utf16Feedback.letterMessage i e g ≠ Utf16Feedback.orderMessage.
Proof.
  unfold Utf16Feedback.letterMessage, Utf16Feedback.orderMessage.
  intros H. cbn in H. discriminate H.
Qed.

(** X22.  On two words of the same length that lower-case unit by unit,
    as ASCII text does, the feedback names the first place where they
    differ, whatever the case of the letters, with the letter expected
    and the letter typed; it falls back on the letter-order message
    exactly when the words are the same up to case. *)
Theorem feedback_first_mismatch (expected input : list N) :
  length input = length expected →
  Utf16.unitwise toLowerCase expected →
  Utf16.unitwise toLowerCase input →
  (Utf16Feedback.getSpellingErrorFeedback toLowerCase expected input
   = Utf16Feedback.orderMessage
   ↔ Utf16.isCorrect toLowerCase input expected = true)
  ∧ (Utf16.isCorrect toLowerCase input expected = false →
     ∃ i e g, expected !! i = Some e ∧ input !! i = Some g
              ∧ toLowerCase [e] ≠ toLowerCase [g]
              ∧ (∀ j, (j < i)%nat →
                      Utf16.sameLetter toLowerCase expected input j = true)
              ∧ Utf16Feedback.getSpellingErrorFeedback toLowerCase
                  expected input
                = Utf16Feedback.letterMessage i e g).
Proof.
  intros Hl He Hi. unfold Utf16.isCorrect.
  assert (Hcases :
    (toLowerCase input = toLowerCase expected
     ∧ Utf16Feedback.getSpellingErrorFeedback toLowerCase expected input
       = Utf16Feedback.orderMessage)
    ∨ (toLowerCase input ≠ toLowerCase expected
       ∧ ∃ i e g, expected !! i = Some e ∧ input !! i = Some g
              ∧ toLowerCase [e] ≠ toLowerCase [g]
              ∧ (∀ j, (j < i)%nat →
                      Utf16.sameLetter toLowerCase expected input j = true)
              ∧ Utf16Feedback.getSpellingErrorFeedback toLowerCase
                  expected input
                = Utf16Feedback.letterMessage i e g)).
  { rewrite unitwise_eq by done.
    unfold Utf16Feedback.getSpellingErrorFeedback.
    rewrite bool_decide_false by (intros H; by apply H).
    destruct (find _ _) as [i|] eqn:Hf.
    - right. apply find_seq_first in Hf as (Hm & Hr & Hj).
      pose proof Hm as Hm'.
      unfold Utf16Feedback.mismatchAt in Hm.
      destruct (expected !! i) as [e|] eqn:Hei; [|done].
      destruct (input !! i) as [g|] eqn:Hgi; [|done].
      apply bool_decide_eq_true in Hm.
      assert (Hsame : ∀ j, (j < i)%nat →
                Utf16.sameLetter toLowerCase expected input j = true).
      { intros j Hji. specialize (Hj j ltac:(lia)).
        rewrite mismatchAt_sameLetter_u16 in Hj by lia.
        by apply negb_false_iff in Hj. }
      split.
      + rewrite <- sameLetter_all_u16. intros H.
        specialize (H i ltac:(lia)).
        rewrite mismatchAt_sameLetter_u16 in Hm' by lia.
        rewrite H in Hm'. done.
      + exists i, e, g. done.
    - left. split; [|done]. apply sameLetter_all_u16. intros i Hil.
      pose proof (find_seq_none _ _ _ Hf i ltac:(lia)) as Hm.
      rewrite mismatchAt_sameLetter_u16 in Hm by lia.
      by apply negb_false_iff in Hm. }
  split.
  - rewrite bool_decide_eq_true.
    destruct Hcases as [[Heq Hm]|[Hne (i & e & g & _ & _ & _ & _ & Hm)]].
    + tauto.
    + split; [|done]. rewrite Hm. intros H. exfalso.
      by apply letterMessage_not_orderMessage in H.
  - intros Hf. apply bool_decide_eq_false in Hf.
    destruct Hcases as [[Heq _]|[_ H]]; [done|exact H].
Qed.

End Utf16Rows.

Lemma accepted_iff_all_correct_witness :
  let target := Utf16.str "noon" in
  let guess := Utf16.str "NOON" in
  target ≠ []
  ∧ Utf16.unitwise Unicode.toLowerCase target
  ∧ Utf16.unitwise Unicode.toLowerCase guess
  ∧ (Utf16.isCorrect Unicode.toLowerCase guess target = true
     ↔ Utf16.classify Unicode.toLowerCase target guess
       = Some (replicate (Nat.max (length target) (length guess)) Correct)).
Proof.
  intros target guess.
  assert (H1 : target ≠ []) by (vm_compute; discriminate).
  assert (H2 : Utf16.unitwise Unicode.toLowerCase target)
    by (vm_compute; reflexivity).
  assert (H3 : Utf16.unitwise Unicode.toLowerCase guess)
    by (vm_compute; reflexivity).
  split; [exact H1|]. split; [exact H2|]. split; [exact H3|].
  exact (accepted_iff_all_correct Unicode.toLowerCase target guess H1 H2 H3).
Defined.

Lemma accepted_iff_all_green_witness :
  let currentWord := Utf16.str "house" in
  let guess := Utf16.str "HOUSE" in
  let currentPair :=
    {| Utf16.word := Utf16.str "house"; Utf16.pattern := [] |} in
  Utf16.unitwise Unicode.toLowerCase guess
  ∧ Utf16.unitwise Unicode.toLowerCase currentWord
  ∧ Utf16.unitwise Unicode.toLowerCase (Utf16.word currentPair)
  ∧ (Utf16.isCorrect Unicode.toLowerCase guess currentWord = true
     ↔ Forall (λ cls, cls = Render.BgGreen500)
         (Utf16Word.renderGuessRow Unicode.toLowerCase currentWord guess))
  ∧ (Utf16.isCorrect Unicode.toLowerCase guess (Utf16.word currentPair)
     = true
     ↔ Forall (λ cls, cls = Render.BgGreen500)
         (Utf16Pair.renderGuessRow Unicode.toLowerCase (Some currentPair)
            guess)).
Proof.
  intros currentWord guess currentPair.
  assert (H1 : Utf16.unitwise Unicode.toLowerCase guess)
    by (vm_compute; reflexivity).
  assert (H2 : Utf16.unitwise Unicode.toLowerCase currentWord)
    by (vm_compute; reflexivity).
  assert (H3 : Utf16.unitwise Unicode.toLowerCase (Utf16.word currentPair))
    by (vm_compute; reflexivity).
  split; [exact H1|]. split; [exact H2|]. split; [exact H3|].
  exact (accepted_iff_all_green Unicode.toLowerCase currentWord guess
           currentPair H1 H2 H3).
Defined.

Lemma correct_iff_green_witness :
  let ms := [WrongPosition; Correct; WrongPosition; WrongPosition;
             WrongPosition] in
  let target := Utf16.str "APPLE" in
  let guess := Utf16.str "PPLEA" in
  Utf16.unitwise Unicode.toLowerCase target
  ∧ Utf16.classify Unicode.toLowerCase target guess = Some ms
  ∧ (ms !! 1%nat = Some Correct
     ↔ Utf16Word.renderGuessRow Unicode.toLowerCase target guess !! 1%nat
       = Some Render.BgGreen500).
Proof.
  intros ms target guess.
  assert (H1 : Utf16.unitwise Unicode.toLowerCase target)
    by (vm_compute; reflexivity).
  assert (H2 : Utf16.classify Unicode.toLowerCase target guess = Some ms)
    by (vm_compute; reflexivity).
  split; [exact H1|]. split; [exact H2|].
  exact (correct_iff_green Unicode.toLowerCase target guess ms 1 H1 H2).
Defined.

Lemma wrong_position_count_witness :
  let ms := [WrongPosition; WrongPosition; Incorrect; WrongPosition;
             Correct] in
  let target := Utf16.str "ERROR" in
  let guess := Utf16.str "ROARR" in
  let r := Utf16.str "r" in
  Utf16.classify Unicode.toLowerCase target guess = Some ms
  ∧ countUpto (Utf16.wrongAt Unicode.toLowerCase ms guess r) (length ms)
    = Nat.min
        (countUpto
           (Utf16.unmatchedAt Unicode.toLowerCase guess
              (Unicode.toLowerCase target) r)
           (length (Unicode.toLowerCase target)))
        (countUpto
           (Utf16.unmatchedGuessAt Unicode.toLowerCase guess
              (Unicode.toLowerCase target) r)
           (length ms)).
Proof.
  intros ms target guess r.
  assert (H : Utf16.classify Unicode.toLowerCase target guess = Some ms)
    by (vm_compute; reflexivity).
  split; [exact H|].
  exact (wrong_position_count Unicode.toLowerCase target guess ms r H).
Defined.

Lemma feedback_first_mismatch_witness :
  let expected := Utf16.str "flower" in
  let input := Utf16.str "FLOWAR" in
  length input = length expected
  ∧ Utf16.unitwise Unicode.toLowerCase expected
  ∧ Utf16.unitwise Unicode.toLowerCase input
  ∧ (Utf16Feedback.getSpellingErrorFeedback Unicode.toLowerCase
       expected input
     = Utf16Feedback.orderMessage
     ↔ Utf16.isCorrect Unicode.toLowerCase input expected = true)
  ∧ (Utf16.isCorrect Unicode.toLowerCase input expected = false →
     ∃ i e g, expected !! i = Some e ∧ input !! i = Some g
              ∧ Unicode.toLowerCase [e] ≠ Unicode.toLowerCase [g]
              ∧ (∀ j, (j < i)%nat →
                      Utf16.sameLetter Unicode.toLowerCase expected input j
                      = true)
              ∧ Utf16Feedback.getSpellingErrorFeedback Unicode.toLowerCase
                  expected input
                = Utf16Feedback.letterMessage i e g).
Proof.
  intros expected input.
  assert (H1 : length input = length expected) by reflexivity.
  assert (H2 : Utf16.unitwise Unicode.toLowerCase expected)
    by (vm_compute; reflexivity).
  assert (H3 : Utf16.unitwise Unicode.toLowerCase input)
    by (vm_compute; reflexivity).
  split; [exact H1|]. split; [exact H2|]. split; [exact H3|].
  exact (feedback_first_mismatch Unicode.toLowerCase expected input
           H1 H2 H3).
Defined.

(** * ASCII text

    ASCII text lower-cases unit by unit. *)

Lemma lowerFrom_ascii (b : bool) (s : list N) :
  Forall (λ u, (u < 128)%N) s →
  Unicode.lowerFrom b s = Unicode.lowerUnit <$> s.
Proof.
  intros H. revert b. induction H as [|u s Hu _ IH]; intros b; [done|].
  simpl.
  destruct (N.eqb_spec u 931) as [->|_]; [lia|].
  destruct (N.eqb_spec u 304) as [->|_]; [lia|].
  by rewrite IH.
Qed.

Lemma unitwise_ascii (s : list N) :
  Forall (λ u, (u < 128)%N) s →
  Utf16.unitwise Unicode.toLowerCase s.
Proof.
  intros H. unfold Utf16.unitwise, Unicode.toLowerCase.
  rewrite lowerFrom_ascii by done.
  rewrite <- list_fmap_compose. apply Forall_fmap_ext_1.
  eapply Forall_impl; [exact H|]. intros u Hu.
  change (Unicode.lowerUnit <$> [u] = Unicode.lowerFrom false [u]).
  symmetry. apply lowerFrom_ascii. by constructor.
Qed.
